(** * Email auto-reply agent: a shallow embedding and its properties

    Source files embedded here:
    - [main_email_agent.py]  (class [EmailToEmailAgent])
    - [telegram_email_bot.py] (the operator's chat commands)

    Conventions of the embedding.
    - A Python [str] is a Rocq [string]; a character stands for the code
      point of the same number, so the text covered is the range below 256.
      Rocq string literals have no escape sequences: the two characters
      backslash, n written in a literal below are exactly the two characters
      that the Python literal [\\n] denotes.
    - A Python [dict] with string keys is a [gmap string _];
      [d.get(k, v)] is [default v (d !! k)].
    - The mail servers, the generation service and the MIME library are
      outside the repository: their answers are taken from an interface
      ([External]) that threads an arbitrary world state.
    - Mutation of the agent object and everything the agent emits (log
      lines, sleeps, calls to the outside) is explicit state passing. *)

From Stdlib Require Import String Ascii ZArith NArith List Bool Lia.
From stdpp Require Import base option list gmap strings pretty.
Import ListNotations.

Local Open Scope string_scope.
Set Warnings "-register-all".

(** ** Python string primitives *)

Module Str.

(** [c.isspace()] for a code point below 256. *)
Definition isspace (c : ascii) : bool :=
  let n := N_of_ascii c in
  ((9 <=? n) && (n <=? 13) || (28 <=? n) && (n <=? 32)
   || (n =? 133) || (n =? 160))%N.

(** [c.lower()] for a code point below 256. *)
Definition lower_char (c : ascii) : ascii :=
  let n := N_of_ascii c in
  if ((65 <=? n) && (n <=? 90)
      || (192 <=? n) && (n <=? 222) && negb (n =? 215))%N
  then ascii_of_N (n + 32) else c.

(** [s.lower()] *)
Fixpoint lower (s : string) : string :=
  match s with
  | EmptyString => EmptyString
  | String c s' => String (lower_char c) (lower s')
  end.

Definition is_empty (s : string) : bool :=
  match s with EmptyString => true | _ => false end.

(** [s.lstrip()], [s.rstrip()], [s.strip()] *)
Fixpoint lstrip (s : string) : string :=
  match s with
  | EmptyString => EmptyString
  | String c s' => if isspace c then lstrip s' else s
  end.

Fixpoint rstrip (s : string) : string :=
  match s with
  | EmptyString => EmptyString
  | String c s' =>
      let r := rstrip s' in
      if isspace c && is_empty r then EmptyString else String c r
  end.

Definition strip (s : string) : string := rstrip (lstrip s).

(** [s.startswith(w)] *)
Fixpoint starts_with (w s : string) : bool :=
  match w, s with
  | EmptyString, _ => true
  | String _ _, EmptyString => false
  | String a w', String b s' => Ascii.eqb a b && starts_with w' s'
  end.

(** [w in s] : substring test. *)
Fixpoint contains (w s : string) : bool :=
  starts_with w s
  || match s with
     | EmptyString => false
     | String _ s' => contains w s'
     end.

(** [s.split(sep)[0]] for a one-character separator: the text before the
    first occurrence of [sep] (all of [s] when there is none). *)
Fixpoint before (sep : ascii) (s : string) : string :=
  match s with
  | EmptyString => EmptyString
  | String c s' => if Ascii.eqb c sep then EmptyString else String c (before sep s')
  end.

(** [s.split()] : split at runs of white space, no empty words. *)
Fixpoint split_acc (acc s : string) : list string :=
  match s with
  | EmptyString => if is_empty acc then [] else [acc]
  | String c s' =>
      if isspace c
      then (if is_empty acc then split_acc EmptyString s'
            else acc :: split_acc EmptyString s')
      else split_acc (acc ++ String c EmptyString) s'
  end.

Definition split (s : string) : list string := split_acc EmptyString s.

(** [s[:n]] *)
Definition take (n : nat) (s : string) : string := String.substring 0 n s.

(** [s.replace(a, b)] for one-character [a] and [b]. *)
Fixpoint replace_char (a b : ascii) (s : string) : string :=
  match s with
  | EmptyString => EmptyString
  | String c s' => String (if Ascii.eqb c a then b else c) (replace_char a b s')
  end.

(** The line-feed character, [chr(10)]. *)
Definition LF : ascii := ascii_of_N 10.

(** The one-character string [chr(10)]. *)
Definition NL : string := String LF EmptyString.

(** [c in s] for a single character. *)
Fixpoint has_char (c : ascii) (s : string) : bool :=
  match s with
  | EmptyString => false
  | String d s' => Ascii.eqb d c || has_char c s'
  end.

(** [c.isdigit()] for a code point below 256: the decimal digits and the
    superscripts two, three and one. *)
Definition is_decimal (c : ascii) : bool :=
  let n := N_of_ascii c in ((48 <=? n) && (n <=? 57))%N.

Definition isdigit_char (c : ascii) : bool :=
  let n := N_of_ascii c in
  (is_decimal c || (n =? 178) || (n =? 179) || (n =? 185))%N.

Fixpoint all_chars (p : ascii -> bool) (s : string) : bool :=
  match s with
  | EmptyString => true
  | String c s' => p c && all_chars p s'
  end.

(** [s.isdigit()] *)
Definition isdigit (s : string) : bool :=
  negb (is_empty s) && all_chars isdigit_char s.

(** [int(s)] on a string for which [isdigit] holds: the decimal value, or
    [None] for the [ValueError] that a superscript digit causes. *)
Fixpoint int_acc (acc : Z) (s : string) : option Z :=
  match s with
  | EmptyString => Some acc
  | String c s' =>
      if is_decimal c
      then int_acc (10 * acc + (Z.of_N (N_of_ascii c) - 48))%Z s'
      else None
  end.

Definition int (s : string) : option Z :=
  if is_empty s then None else int_acc 0%Z s.

End Str.

(** ** The template reply generator ([main_email_agent.py], lines 317-365) *)

Module Template.
Import Str.

(** The dictionary [email_data]. *)
Abbreviation email_data := (gmap string string).

(** Lines 324-328 (and again 285-289): the first name of the sender. *)
Definition extract_sender_name (sender : string) : string :=
  if contains "<" sender then
    let name_part := strip (before "<" sender) in
    if negb (is_empty name_part)
    then hd EmptyString (split name_part)
    else "there"
  else "there".

(** The eight f-strings of the chain, in source order. *)
Definition reply_social (sender_name : string) : string :=
  "Dear " ++ sender_name ++ ",\n\nThank you for the invitation! I'd love to catch up. Let me check my schedule and I'll get back to you shortly with some available times.\n\nLooking forward to it!\n\nBest regards,\nYash".

Definition reply_availability (sender_name : string) : string :=
  "Dear " ++ sender_name ++ ",\n\nThanks for reaching out about my availability. I'll review my calendar and send you some time slots that work for both of us.\n\nI'll get back to you within a few hours.\n\nBest regards,\nYash".

Definition reply_work (sender_name : string) : string :=
  "Dear " ++ sender_name ++ ",\n\nThank you for your message regarding work matters. I've received your request and will review it promptly.\n\nI'll respond with the necessary information soon.\n\nBest regards,\nYash".

Definition reply_meeting (sender_name : string) : string :=
  "Dear " ++ sender_name ++ ",\n\nThank you for reaching out about scheduling a meeting. I'll review my calendar and get back to you shortly with my availability.\n\nBest regards,\nYash".

Definition reply_business (sender_name : string) : string :=
  "Dear " ++ sender_name ++ ",\n\nThank you for your message regarding the business opportunity. I'm interested in learning more about this collaboration.\n\nI'll review the details and respond with my thoughts soon.\n\nBest regards,\nYash".

Definition reply_urgent (sender_name : string) : string :=
  "Dear " ++ sender_name ++ ",\n\nI've received your urgent message and will prioritize reviewing it immediately. You can expect a detailed response within the next hour.\n\nBest regards,\nYash".

Definition reply_question (sender_name : string) : string :=
  "Dear " ++ sender_name ++ ",\n\nThank you for your question. I'll look into this and provide you with a comprehensive answer shortly.\n\nBest regards,\nYash".

Definition reply_default (sender_name : string) : string :=
  "Dear " ++ sender_name ++ ",\n\nThank you for your email. I've received your message and will review it carefully. I'll get back to you with a detailed response soon.\n\nBest regards,\nYash".

(** [any(word in content for word in words)] *)
Definition any_in (content : string) (words : list string) : bool :=
  existsb (fun word => contains word content) words.

(** Lines 319-331: the scan string. *)
Definition scan_content (ed : email_data) : string :=
  let subject := lower (default "" (ed !! "subject")) in
  let body := lower (default "" (ed !! "body")) in
  subject ++ " " ++ body.

Definition generate_improved_mock_reply (ed : email_data) : string :=
  let sender := default "" (ed !! "sender") in
  let sender_name := extract_sender_name sender in
  let content := scan_content ed in
  if any_in content ["dinner"; "lunch"; "coffee"; "drink"; "hang out"; "meet up"]
  then reply_social sender_name
  else if any_in content ["free"; "available"; "time"; "when"; "schedule"]
  then reply_availability sender_name
  else if any_in content ["leave"; "office"; "work"; "meeting"; "project"]
  then reply_work sender_name
  else if any_in content ["call"; "appointment"; "zoom"; "teams"]
  then reply_meeting sender_name
  else if any_in content ["business"; "collaboration"; "proposal"]
  then reply_business sender_name
  else if any_in content ["urgent"; "asap"; "emergency"; "immediate"; "important"]
  then reply_urgent sender_name
  else if any_in content ["question"; "help"; "support"; "how"; "what"; "why"; "?"]
  then reply_question sender_name
  else reply_default sender_name.

(** The dictionary with the three keys the generator reads. *)
Definition mk_email (sender subject body : string) : email_data :=
  <["sender" := sender]> (<["subject" := subject]> (<["body" := body]> ∅)).

(** *** The rule table as the specification words it *)

Inductive category : Type :=
| Social | Availability | Work | MeetingRequest | Business | Urgency | Question.

Definition priority_order : list category :=
  [Social; Availability; Work; MeetingRequest; Business; Urgency; Question].

Definition keywords (c : category) : list string :=
  match c with
  | Social => ["dinner"; "lunch"; "coffee"; "drink"; "hang out"; "meet up"]
  | Availability => ["free"; "available"; "time"; "when"; "schedule"]
  | Work => ["leave"; "office"; "work"; "meeting"; "project"]
  | MeetingRequest => ["call"; "appointment"; "zoom"; "teams"]
  | Business => ["business"; "collaboration"; "proposal"]
  | Urgency => ["urgent"; "asap"; "emergency"; "immediate"; "important"]
  | Question => ["question"; "help"; "support"; "how"; "what"; "why"; "?"]
  end.

Definition matches (content : string) (c : category) : bool :=
  any_in content (keywords c).

(** [w] occurs in [s]: [s] is some text, then [w], then some text. *)
Definition occurs (w s : string) : Prop :=
  exists pre post, s = pre ++ w ++ post.

(** A text triggers a category when one of its keywords occurs in it. *)
Definition triggers (content : string) (c : category) : Prop :=
  exists w, In w (keywords c) /\ occurs w content.

(** The first category of the priority order whose keyword set matches. *)
Definition first_match (content : string) : option category :=
  List.find (matches content) priority_order.

Definition template (c : option category) (sender_name : string) : string :=
  match c with
  | Some Social => reply_social sender_name
  | Some Availability => reply_availability sender_name
  | Some Work => reply_work sender_name
  | Some MeetingRequest => reply_meeting sender_name
  | Some Business => reply_business sender_name
  | Some Urgency => reply_urgent sender_name
  | Some Question => reply_question sender_name
  | None => reply_default sender_name
  end.

End Template.

(** ** Message bodies ([get_email_body], lines 228-249) *)

Module Mime.
Import Str.

(** A parsed message as the [email] library presents it. [content_type] is
    the value of [get_content_type()], [disposition] the header
    [Content-Disposition] ([None] when absent). For a leaf, [raw] is
    [get_payload()] and [decoded] is the outcome of
    [get_payload(decode=True).decode()]: [None] when that raises. *)
Inductive message : Type :=
| Leaf (content_type : string) (disposition : option string)
       (raw : string) (decoded : option string)
| Multipart (content_type : string) (disposition : option string)
       (subparts : list message).

Definition is_multipart (m : message) : bool :=
  match m with Leaf _ _ _ _ => false | Multipart _ _ _ => true end.

Definition get_content_type (m : message) : string :=
  match m with Leaf ct _ _ _ => ct | Multipart ct _ _ => ct end.

(** [str(part.get("Content-Disposition"))] *)
Definition disposition_str (m : message) : string :=
  let d := match m with Leaf _ d _ _ => d | Multipart _ d _ => d end in
  default "None" d.

(** [part.get_payload(decode=True).decode()]; on a multipart container
    [get_payload(decode=True)] is [None], and [.decode()] raises. *)
Definition decode_payload (m : message) : option string :=
  match m with Leaf _ _ _ d => d | Multipart _ _ _ => None end.

(** [str(email_message.get_payload())], used on a message that is not
    multipart. *)
Definition str_payload (m : message) : string :=
  match m with Leaf _ _ r _ => r | Multipart _ _ _ => "" end.

(** [email_message.walk()]: the message, then its subparts, depth first. *)
Fixpoint walk (m : message) : list message :=
  match m with
  | Leaf _ _ _ _ => [m]
  | Multipart _ _ subparts => m :: flat_map walk subparts
  end.

(** The test of line 237. *)
Definition plain_inline (part : message) : bool :=
  String.eqb (get_content_type part) "text/plain"
  && negb (contains "attachment" (disposition_str part)).

(** The [for] loop of lines 233-242, started with [body = ""]. *)
Fixpoint scan_parts (parts : list message) : string :=
  match parts with
  | [] => ""
  | part :: rest =>
      if plain_inline part then
        match decode_payload part with
        | Some body => body            (* break *)
        | None => scan_parts rest      (* except: continue *)
        end
      else scan_parts rest
  end.

Definition get_email_body (email_message : message) : string :=
  let body :=
    if is_multipart email_message then scan_parts (walk email_message)
    else match decode_payload email_message with
         | Some b => b
         | None => str_payload email_message
         end in
  strip body.

(** *** The extraction rule as the specification words it: the first
    plain-text part that is not an attachment; without one, the raw payload
    decoded as text; the empty string when decoding fails. *)
Definition body_as_specified (m : message) : string :=
  let chosen :=
    if is_multipart m then List.find plain_inline (walk m) else None in
  match chosen with
  | Some part => default "" (decode_payload part)
  | None => default "" (decode_payload m)
  end.

End Mime.

(** ** The agent ([EmailToEmailAgent]) *)

Module Agent.
Import Str Template Mime.

(** *** Configuration: the dictionary read from [config.yaml]. A key read
    with [.get(k, d)] is an optional field; a key read with [[k]] is a
    plain field. *)
Record EmailConfig : Type := {
  email : string;
  app_password : string;
  imap_server : string;
  imap_port : Z;
  smtp_server : string;
  smtp_port : Z }.

Record AgentConfig : Type := {
  auto_reply : option bool;
  reply_delay : option Z;
  check_interval : option Z;
  max_emails_per_check : option Z }.

Record AiConfig : Type := {
  enabled : option bool;
  api_key : option string }.

Record Config : Type := {
  cfg_email : EmailConfig;
  cfg_agent : option AgentConfig;     (* config.get('agent', {}) *)
  cfg_ai : option AiConfig }.         (* config.get('ai', {}) *)

Definition agent_get {A} (f : AgentConfig -> option A) (d : A) (c : Config) : A :=
  default d (cfg_agent c ≫= f).

Definition ai_get {A} (f : AiConfig -> option A) (d : A) (c : Config) : A :=
  default d (cfg_ai c ≫= f).

(** *** What the outside answers *)

(** The outcome of a call that may raise: [Raised e] carries [str(e)]. *)
Inductive result (A : Type) : Type :=
| Raised (e : string)
| Returned (a : A).
Arguments Raised {A} e.
Arguments Returned {A} a.

(** A fetched and parsed message: the decoded [Subject], [From], [Date]
    and the MIME tree. The embedding covers messages whose [From] and
    [Subject] headers are present and are text. *)
Record fetched : Type := {
  f_subject : string;
  f_sender : string;
  f_date : string;
  f_message : message }.

(** [MIMEMultipart()] with headers set in order and [MIMEText] parts
    attached; a part is its text and its subtype. *)
Record mime : Type := {
  headers : list (string * string);
  attached : list (string * string) }.

(** The libraries behind the agent, over a world state [W].
    - [imap_open], [imap_login]: [imaplib.IMAP4_SSL(server, port)], [.login];
    - [imap_search_unseen]: [select('inbox')] then [search(None, 'UNSEEN')];
      [Returned None] is a status other than ['OK'];
    - [imap_fetch id]: [fetch(id, '(RFC822)')] and the parsing of lines
      192-200; [Returned None] is a status other than ['OK'];
    - [smtp_open], [smtp_starttls], [smtp_login], [smtp_sendmail];
    - [gemini_init key]: [genai.configure] and [genai.GenerativeModel];
    - [gemini_generate prompt]: [generate_content(prompt)] and [.text];
    - [as_string]: [msg.as_string()], which raises for a header value
      that the library refuses (one that holds a line break followed by
      another header). *)
Class External (W : Type) : Type := {
  gemini_available : bool;
  imap_open : string -> Z -> W -> result unit * W;
  imap_login : string -> string -> W -> result unit * W;
  imap_search_unseen : W -> result (option (list string)) * W;
  imap_fetch : string -> W -> result (option fetched) * W;
  smtp_open : string -> Z -> W -> result unit * W;
  smtp_starttls : W -> result unit * W;
  smtp_login : string -> string -> W -> result unit * W;
  smtp_sendmail : string -> string -> string -> W -> result unit * W;
  gemini_init : string -> W -> result unit * W;
  gemini_generate : string -> W -> result string * W;
  as_string : mime -> result string }.

(** *** State *)

(** A connection object; the code only tests it for truth. *)
Inductive session : Type := Session.

Record agent : Type := {
  config : Config;
  imap_conn : option session;
  smtp_conn : option session;
  processed_emails : gset string;
  gemini_model : option session }.

Inductive level : Type := INFO | WARNING | ERROR.

(** Entry of a method, recorded for counting calls. *)
Inductive call : Type :=
| ConnectEmail
| SendCustomEmail (recipient subject body : string)
| SendReply (original_email : email_data) (reply_text : string).

(** What a run leaves behind, oldest first. *)
Inductive event : Type :=
| Log (lvl : level) (line : string)              (* self.logger.<lvl>(line) *)
| Slept (seconds : Z)                            (* time.sleep(seconds) *)
| Enter (c : call)
| SmtpSend (from_addr to_addr text : string).    (* smtp_conn.sendmail(...) *)

Record sys (W : Type) : Type := {
  self : agent;
  world : W;
  trace : list event }.
Arguments self {W} _.
Arguments world {W} _.
Arguments trace {W} _.

(** The state monad of the embedding. *)
Definition M (W A : Type) : Type := sys W -> A * sys W.

Definition ret {W A} (a : A) : M W A := fun s => (a, s).
Definition bind {W A B} (m : M W A) (k : A -> M W B) : M W B :=
  fun s => let '(a, s') := m s in k a s'.

Declare Scope agent_scope.
Delimit Scope agent_scope with agent.
Notation "x <- m ;; k" := (bind m (fun x => k))
  (at level 100, m at next level, right associativity) : agent_scope.
Notation "m ;; k" := (bind m (fun _ => k))
  (at level 100, right associativity) : agent_scope.
Local Open Scope agent_scope.

Section Methods.
Context {W : Type} `{Ext : External W}.

Definition get_self : M W agent := fun s => (self s, s).

Definition emit (e : event) : M W unit :=
  fun s => (tt, {| self := self s; world := world s; trace := trace s ++ [e] |}).

Definition log (lvl : level) (line : string) : M W unit := emit (Log lvl line).

(** A call to the outside. *)
Definition ext {A} (f : W -> A * W) : M W A :=
  fun s => let '(a, w) := f (world s) in
           (a, {| self := self s; world := w; trace := trace s |}).

Definition set_imap_conn (c : option session) : M W unit :=
  fun s => let a := self s in
    (tt, {| self := {| config := config a; imap_conn := c; smtp_conn := smtp_conn a;
                       processed_emails := processed_emails a;
                       gemini_model := gemini_model a |};
            world := world s; trace := trace s |}).

Definition set_smtp_conn (c : option session) : M W unit :=
  fun s => let a := self s in
    (tt, {| self := {| config := config a; imap_conn := imap_conn a; smtp_conn := c;
                       processed_emails := processed_emails a;
                       gemini_model := gemini_model a |};
            world := world s; trace := trace s |}).

Definition set_gemini_model (c : option session) : M W unit :=
  fun s => let a := self s in
    (tt, {| self := {| config := config a; imap_conn := imap_conn a;
                       smtp_conn := smtp_conn a;
                       processed_emails := processed_emails a;
                       gemini_model := c |};
            world := world s; trace := trace s |}).

(** [self.processed_emails.add(i)] *)
Definition add_processed (i : string) : M W unit :=
  fun s => let a := self s in
    (tt, {| self := {| config := config a; imap_conn := imap_conn a;
                       smtp_conn := smtp_conn a;
                       processed_emails := {[ i ]} ∪ processed_emails a;
                       gemini_model := gemini_model a |};
            world := world s; trace := trace s |}).

(** [setup_gemini], lines 117-141. The model object is stored (line 132)
    before the test call of line 135. *)
Definition setup_gemini : M W bool :=
  if negb gemini_available then
    log INFO "Google Generative AI library not available - using mock responses";;
    ret false
  else
    a <- get_self;;
    let key := cfg_ai (config a) ≫= api_key in
    match key with
    | None =>
        log INFO "No Gemini API key configured - using mock responses";; ret false
    | Some k =>
        if is_empty k || String.eqb k "your-gemini-api-key-here" then
          log INFO "No Gemini API key configured - using mock responses";; ret false
        else
          r <- ext (gemini_init k);;
          match r with
          | Raised _ =>
              log ERROR "Failed to setup Gemini - check API key configuration";;
              ret false
          | Returned _ =>
              set_gemini_model (Some Session);;
              t <- ext (gemini_generate "Test message");;
              match t with
              | Raised _ =>
                  log ERROR "Failed to setup Gemini - check API key configuration";;
                  ret false
              | Returned _ =>
                  log INFO "Google Gemini (gemini-2.5-flash) initialized successfully";;
                  ret true
              end
          end
    end.

Definition connection_failed (e : string) : M W bool :=
  log ERROR ("Email connection failed: " ++ e);; ret false.

(** [connect_email], lines 143-164. Each connection object is stored before
    its login. *)
Definition connect_email : M W bool :=
  emit (Enter ConnectEmail);;
  a <- get_self;;
  let email_config := cfg_email (config a) in
  log INFO "Connecting to Gmail IMAP...";;
  r <- ext (imap_open (imap_server email_config) (imap_port email_config));;
  match r with
  | Raised e => connection_failed e
  | Returned _ =>
  set_imap_conn (Some Session);;
  r <- ext (imap_login (email email_config) (app_password email_config));;
  match r with
  | Raised e => connection_failed e
  | Returned _ =>
  log INFO "Connecting to Gmail SMTP...";;
  r <- ext (smtp_open (smtp_server email_config) (smtp_port email_config));;
  match r with
  | Raised e => connection_failed e
  | Returned _ =>
  set_smtp_conn (Some Session);;
  r <- ext smtp_starttls;;
  match r with
  | Raised e => connection_failed e
  | Returned _ =>
  r <- ext (smtp_login (email email_config) (app_password email_config));;
  match r with
  | Raised e => connection_failed e
  | Returned _ =>
  log INFO "Email connections established";;
  ret true
  end end end end end.

(** [l[-n:]] *)
Definition last_slice {A} (n : Z) (l : list A) : list A :=
  if (0 <? n)%Z then drop (length l - Z.to_nat n) l
  else drop (Z.to_nat (- n)) l.

(** The dictionary of lines 205-211. *)
Definition make_email_data (email_id : string) (m : fetched) : email_data :=
  <["id" := email_id]> (<["subject" := f_subject m]> (<["sender" := f_sender m]>
  (<["body" := get_email_body (f_message m)]> (<["date" := f_date m]> ∅)))).

(** The [for] loop of lines 183-220; identifiers are already decoded. *)
Fixpoint read_loop (email_ids : list string) (new_emails : list email_data)
  : M W (list email_data) :=
  match email_ids with
  | [] => ret new_emails
  | email_id :: rest =>
      a <- get_self;;
      if decide (email_id ∈ processed_emails a) then read_loop rest new_emails
      else
        r <- ext (imap_fetch email_id);;
        match r with
        | Raised e =>
            log WARNING ("Error processing email b'" ++ email_id ++ "': " ++ e);;
            read_loop rest new_emails
        | Returned None => read_loop rest new_emails
        | Returned (Some m) =>
            add_processed email_id;;
            log INFO ("New email from " ++ f_sender m ++ ": "
                      ++ take 50 (f_subject m) ++ "...");;
            read_loop rest (new_emails ++ [make_email_data email_id m])
        end
  end.

(** [read_new_emails], lines 166-226. *)
Definition read_new_emails : M W (list email_data) :=
  a <- get_self;;
  match imap_conn a with
  | None => ret []
  | Some _ =>
      r <- ext imap_search_unseen;;
      match r with
      | Raised e => log ERROR ("Error reading emails: " ++ e);; ret []
      | Returned None => ret []
      | Returned (Some email_ids) =>
          let max_emails := agent_get max_emails_per_check 5%Z (config a) in
          read_loop (last_slice max_emails email_ids) []
      end
  end.

(** The message of lines 256-260 and 401-407. *)
Definition plain_message (from_addr to_addr subject body : string) : mime :=
  {| headers := [("From", from_addr); ("To", to_addr); ("Subject", subject)];
     attached := [(body, "plain")] |}.

(** [send_custom_email], lines 251-266. With no connection object after the
    reconnect, [self.smtp_conn.sendmail] raises [AttributeError]. *)
Definition send_custom_email (recipient subject body : string) : M W bool :=
  emit (Enter (SendCustomEmail recipient subject body));;
  a <- get_self;;
  match smtp_conn a with
  | Some _ => ret tt
  | None => connect_email;; ret tt
  end;;
  a <- get_self;;
  let sender := email (cfg_email (config a)) in
  let msg := plain_message sender recipient subject body in
  match smtp_conn a with
  | None =>
      log ERROR "Failed to send custom email: 'NoneType' object has no attribute 'sendmail'";;
      ret false
  | Some _ =>
      match as_string msg with
      | Raised e => log ERROR ("Failed to send custom email: " ++ e);; ret false
      | Returned text =>
          emit (SmtpSend sender recipient text);;
          r <- ext (smtp_sendmail sender recipient text);;
          match r with
          | Returned _ => log INFO ("Sent custom email to " ++ recipient);; ret true
          | Raised e => log ERROR ("Failed to send custom email: " ++ e);; ret false
          end
      end
  end.

(** The prompt of lines 291-305. *)
Definition gemini_prompt (sender_name subject body : string) : string :=
  "You are a professional email assistant for Yash. Write a polite, helpful auto-reply to this email." ++ NL
  ++ "            " ++ NL
  ++ "Sender: " ++ sender_name ++ NL
  ++ "Subject: " ++ subject ++ NL
  ++ "Email content: " ++ body ++ NL
  ++ "            " ++ NL
  ++ "Write a professional reply that:" ++ NL
  ++ "1. Acknowledges their message appropriately" ++ NL
  ++ "2. Is helpful and courteous" ++ NL
  ++ "3. Indicates you'll respond properly soon (if needed)" ++ NL
  ++ "4. Keep it brief (2-3 sentences)" ++ NL
  ++ "5. Sign as " ++ String (ascii_of_N 34) "Best regards, Yash" ++ String (ascii_of_N 34) "" ++ NL
  ++ "6. Use proper email formatting with line breaks" ++ NL
  ++ "            " ++ NL
  ++ "Reply:".

(** [generate_gemini_reply], lines 277-315. *)
Definition generate_gemini_reply (ed : email_data) : M W string :=
  let sender := default "Unknown" (ed !! "sender") in
  let subject := default "No Subject" (ed !! "subject") in
  let body := take 500 (default "" (ed !! "body")) in
  let sender_name := extract_sender_name sender in
  let prompt := gemini_prompt sender_name subject body in
  r <- ext (gemini_generate prompt);;
  match r with
  | Returned text =>
      log INFO "Generated Gemini AI reply";;
      ret (strip text)
  | Raised e =>
      log ERROR ("Gemini reply generation failed: " ++ e);;
      ret (generate_improved_mock_reply ed)
  end.

(** [generate_ai_reply], lines 268-275. *)
Definition generate_ai_reply (ed : email_data) : M W string :=
  a <- get_self;;
  if ai_get enabled false (config a) && bool_decide (is_Some (gemini_model a))
  then generate_gemini_reply ed
  else ret (generate_improved_mock_reply ed).

(** [send_reply], lines 392-418. A missing key raises [KeyError] inside the
    [try]. *)
Definition send_reply (original_email : email_data) (reply_text : string) : M W bool :=
  emit (Enter (SendReply original_email reply_text));;
  a <- get_self;;
  match smtp_conn a with
  | None => ret false
  | Some _ =>
      let email_config := cfg_email (config a) in
      match original_email !! "sender" with
      | None => log ERROR "Failed to send reply: 'sender'";; ret false
      | Some to_addr =>
      match original_email !! "subject" with
      | None => log ERROR "Failed to send reply: 'subject'";; ret false
      | Some subject =>
          let msg := plain_message (email email_config) to_addr
                                   ("Re: " ++ subject) reply_text in
          match as_string msg with
          | Raised e => log ERROR ("Failed to send reply: " ++ e);; ret false
          | Returned text =>
              emit (SmtpSend (email email_config) to_addr text);;
              r <- ext (smtp_sendmail (email email_config) to_addr text);;
              match r with
              | Returned _ => log INFO ("Reply sent to " ++ to_addr);; ret true
              | Raised e => log ERROR ("Failed to send reply: " ++ e);; ret false
              end
          end
      end end
  end.

Definition processing_error (ed : email_data) (e : string) : M W unit :=
  log ERROR ("Error processing email " ++ default "unknown" (ed !! "id") ++ ": " ++ e).

(** The body of the [for] loop of lines 435-453. [time.sleep] raises
    [ValueError] on a negative delay. *)
Definition process_one (delay : Z) (ed : email_data) : M W unit :=
  match ed !! "subject" with
  | None => processing_error ed "'subject'"
  | Some subject =>
      log INFO ("Generating reply for: " ++ take 50 subject ++ "...");;
      reply_text <- generate_ai_reply ed;;
      if (delay <? 0)%Z then
        processing_error ed "sleep length must be non-negative"
      else
        emit (Slept delay);;
        ok <- send_reply ed reply_text;;
        if ok then log INFO "Auto-reply sent successfully"
        else log ERROR "Failed to send auto-reply"
  end.

Fixpoint process_loop (delay : Z) (new_emails : list email_data) : M W unit :=
  match new_emails with
  | [] => ret tt
  | ed :: rest => process_one delay ed;; process_loop delay rest
  end.

(** [process_emails], lines 420-453. *)
Definition process_emails : M W unit :=
  a <- get_self;;
  if negb (agent_get auto_reply true (config a)) then
    log INFO "Auto-reply is disabled"
  else
    new_emails <- read_new_emails;;
    match new_emails with
    | [] => ret tt
    | _ => process_loop (agent_get reply_delay 5%Z (config a)) new_emails
    end.

(** The loop of [run], lines 469-471, cut after [n] rounds. On a negative
    interval [time.sleep] raises and the loop is left after its first
    round. *)
Fixpoint poll_cycles (n : nat) : M W unit :=
  match n with
  | O => ret tt
  | S k =>
      process_emails;;
      a <- get_self;;
      let check_interval := agent_get check_interval 30%Z (config a) in
      if (check_interval <? 0)%Z then ret tt
      else
        emit (Slept check_interval);;
        poll_cycles k
  end.

End Methods.

(** *** Start-up and shut-down *)

(** The calls of [cleanup]: [imap_conn.close()], [imap_conn.logout()] and
    [smtp_conn.quit()]. *)
Class Closing (W : Type) : Type := {
  imap_close : W -> result unit * W;
  imap_logout : W -> result unit * W;
  smtp_quit : W -> result unit * W }.

Section Lifecycle.
Context {W : Type} `{Ext : External W} `{Cl : Closing W}.

(** The object built by lines 33-38 of [__init__]. *)
Definition fresh_agent (cfg : Config) : agent := {|
  config := cfg;
  imap_conn := None;
  smtp_conn := None;
  processed_emails := ∅;
  gemini_model := None |}.

(** [__init__], lines 31-39, for a loaded configuration. *)
Definition init (cfg : Config) (w : W) : sys W :=
  snd (setup_gemini {| self := fresh_agent cfg; world := w; trace := [] |}).

(** [cleanup], lines 480-490. *)
Definition cleanup : M W unit :=
  a <- get_self;;
  r <- match imap_conn a with
       | Some _ =>
           c <- ext imap_close;;
           match c with
           | Raised e => ret (Raised e)
           | Returned _ => ext imap_logout
           end
       | None => ret (Returned tt)
       end;;
  match r with
  | Raised e => log WARNING ("Cleanup warning: " ++ e)
  | Returned _ =>
      q <- match smtp_conn a with
           | Some _ => ext smtp_quit
           | None => ret (Returned tt)
           end;;
      match q with
      | Raised e => log WARNING ("Cleanup warning: " ++ e)
      | Returned _ => log INFO "Cleanup completed"
      end
  end.

(** The [try] of [run], lines 468-476: [n] is the number of rounds begun
    before the interrupt from the keyboard. [time.sleep] raises
    [ValueError] on a negative interval, which the last [except] logs. *)
Fixpoint run_loop (check_interval : Z) (n : nat) : M W unit :=
  match n with
  | O => log INFO "Stopping Email Agent..."
  | S k =>
      process_emails;;
      if (check_interval <? 0)%Z then
        log ERROR "Unexpected error: sleep length must be non-negative"
      else
        emit (Slept check_interval);;
        run_loop check_interval k
  end.

(** [run], lines 455-478. *)
Definition run (n : nat) : M W unit :=
  log INFO "Starting Email to Email AI Agent";;
  ok <- connect_email;;
  if negb ok then log ERROR "Failed to connect to email. Exiting."
  else
    a <- get_self;;
    let check_interval := agent_get check_interval 30%Z (config a) in
    log INFO ("Monitoring emails every " ++ pretty check_interval ++ " seconds...");;
    log INFO "Press Ctrl+C to stop";;
    run_loop check_interval n;;
    cleanup.

End Lifecycle.

(** Reply attempts for one message identifier in a trace: the calls of
    [send_reply] on a message carrying that identifier. *)
Definition is_attempt (i : string) (e : event) : bool :=
  match e with
  | Enter (SendReply ed _) => bool_decide (ed !! "id" = Some i)
  | _ => false
  end.

Definition attempts (i : string) (t : list event) : nat :=
  length (filter (fun e => is_attempt i e = true) t).

End Agent.

(** ** The operator's chat commands ([telegram_email_bot.py]) *)

Module Bot.
Import Str Template Agent.
Local Open Scope agent_scope.

(** The module-level [pending_emails] (line 15), keyed by the operator's
    numeric identity, and the per-operator [user_data['read_emails']]. *)
Record bot : Type := {
  pending_emails : gmap Z (string * string * string);
  read_emails : gmap Z (list email_data) }.

Definition set_pending (p : gmap Z (string * string * string)) (b : bot) : bot :=
  {| pending_emails := p; read_emails := read_emails b |}.

Definition set_read (r : gmap Z (list email_data)) (b : bot) : bot :=
  {| pending_emails := pending_emails b; read_emails := r |}.

Definition preview (recipient subject body : string) : string :=
  "Preview:" ++ NL ++ "To: " ++ recipient ++ NL ++ "Subject: " ++ subject ++ NL
  ++ "Body: " ++ body ++ NL ++ NL ++ "Reply /approve to send or /cancel to abort.".

(** [mail_command], lines 17-28: the new state and the texts sent back. *)
Definition mail_command (user : Z) (args : list string) (b : bot) : bot * list string :=
  match args with
  | recipient :: ((_ :: _) as rest) =>
      let subject := "Message from Telegram" in
      let body := String.concat " " rest in
      (set_pending (<[user := (recipient, subject, body)]> (pending_emails b)) b,
       [preview recipient subject body])
  | _ => (b, ["Usage: /mail recipient@example.com message"])
  end.

Section Commands.
Context {W : Type} `{Ext : External W}.

(** [approve_command], lines 49-56. [pop] removes the entry first. *)
Definition approve_command (user : Z) (b : bot) : M W (bot * list string) :=
  let data := pending_emails b !! user in
  let b' := set_pending (delete user (pending_emails b)) b in
  match data with
  | Some (recipient, subject, body) =>
      success <- send_custom_email recipient subject body;;
      ret (b', [if success then "✅ Email sent!" else "❌ Failed to send email."])
  | None => ret (b', ["No pending email to approve."])
  end.

(** [cancel_command], lines 58-62. *)
Definition cancel_command (user : Z) (b : bot) : bot * list string :=
  let data := pending_emails b !! user in
  let b' := set_pending (delete user (pending_emails b)) b in
  match data with
  | Some _ => (b', ["Pending email cancelled."])
  | None => (b', ["No pending email to cancel."])
  end.

Definition listing (idx : nat) (ed : email_data) : string :=
  let snippet := replace_char LF " " (take 100 (ed !!! "body")) in
  "Email #" ++ pretty (idx + 1)%nat ++ NL ++ "From: " ++ ed !!! "sender" ++ NL
  ++ "Subject: " ++ ed !!! "subject" ++ NL ++ "Snippet: " ++ snippet ++ NL ++ NL
  ++ "Reply with /reply " ++ pretty (idx + 1)%nat
  ++ " to generate a professional reply.".

(** [read_command], lines 64-76. *)
Definition read_command (user : Z) (b : bot) : M W (bot * list string) :=
  emails <- read_new_emails;;
  match emails with
  | [] => ret (b, ["No new emails."])
  | _ => ret (set_read (<[user := emails]> (read_emails b)) b, imap listing emails)
  end.

(** The test of lines 39 and 90. *)
Definition use_gemini (a : agent) : bool :=
  ai_get enabled false (config a) && bool_decide (is_Some (gemini_model a)).

Definition meeting_template (meeting_details : string) : string :=
  "Dear Sir/Madam," ++ NL ++ NL
  ++ "I would like to schedule a meeting regarding: " ++ meeting_details ++ "." ++ NL
  ++ "Please let me know your availability." ++ NL ++ NL
  ++ "Best regards," ++ NL ++ "Yash".

(** [schedule_command], lines 30-47. *)
Definition schedule_command (user : Z) (args : list string) (b : bot)
  : M W (bot * list string) :=
  match args with
  | recipient :: ((_ :: _) as rest) =>
      let meeting_details := String.concat " " rest in
      let email_data := mk_email "Telegram" "Meeting Request" meeting_details in
      a <- get_self;;
      body <- (if use_gemini a then generate_gemini_reply email_data
               else ret (meeting_template meeting_details));;
      let subject := "Meeting Request" in
      ret (set_pending (<[user := (recipient, subject, body)]> (pending_emails b)) b,
           [preview recipient subject body])
  | _ => ret (b, ["Usage: /schedule recipient@example.com meeting details"])
  end.

Definition reply_preview (recipient subject body : string) : string :=
  "Reply Preview:" ++ NL ++ "To: " ++ recipient ++ NL ++ "Subject: Re: " ++ subject ++ NL
  ++ "Body: " ++ body ++ NL ++ NL ++ "Reply /approve to send or /cancel to abort.".

(** [reply_command], lines 78-98. An exception that leaves the handler is
    the outcome [Raised]; the state reached so far stays. *)
Definition reply_command (user : Z) (args : list string) (b : bot)
  : M W (result (bot * list string)) :=
  match args with
  | [] => ret (Returned (b, ["Usage: /reply <email_number>"]))
  | number :: _ =>
      if negb (isdigit number) then ret (Returned (b, ["Usage: /reply <email_number>"]))
      else
        match int number with
        | None =>
            ret (Raised ("invalid literal for int() with base 10: '" ++ number ++ "'"))
        | Some n =>
            let email_idx := (n - 1)%Z in
            let emails := default [] (read_emails b !! user) in
            if (email_idx <? 0)%Z || (Z.of_nat (length emails) <=? email_idx)%Z
            then ret (Returned (b, ["Invalid email number."]))
            else
              match emails !! Z.to_nat email_idx with
              | None => ret (Returned (b, ["Invalid email number."]))
              | Some email_data =>
                  a <- get_self;;
                  reply_body <- (if use_gemini a then generate_gemini_reply email_data
                                 else ret (generate_improved_mock_reply email_data));;
                  match email_data !! "sender" with
                  | None => ret (Raised "'sender'")
                  | Some sender =>
                  match email_data !! "subject" with
                  | None => ret (Raised "'subject'")
                  | Some subject =>
                      ret (Returned
                             (set_pending (<[user := (sender, "Re: " ++ subject, reply_body)]>
                                             (pending_emails b)) b,
                              [reply_preview sender subject reply_body]))
                  end end
              end
        end
  end.

(** The commands registered in [main], lines 102-106. *)
Inductive command : Type :=
| Mail (args : list string)
| Approve
| Cancel
| Read
| Reply (args : list string).

Definition handle (user : Z) (c : command) (b : bot)
  : M W (result (bot * list string)) :=
  match c with
  | Mail args => ret (Returned (mail_command user args b))
  | Approve => r <- approve_command user b;; ret (Returned r)
  | Cancel => ret (Returned (cancel_command user b))
  | Read => r <- read_command user b;; ret (Returned r)
  | Reply args => reply_command user args b
  end.

End Commands.
End Bot.

(** ** A scripted outside, for running the model on concrete inputs *)

Module Scripted.
Import Str Template Mime Agent.

(** The world is the number of mailbox searches made so far. *)
Record script : Type := {
  logins_succeed : bool;
  unseen : nat -> result (option (list string));
  inbox : string -> result (option fetched);
  sendmail_outcome : result unit;
  gemini_outcome : result string }.

Definition render (m : mime) : string :=
  String.concat "" (map (fun h => fst h ++ ": " ++ snd h ++ NL) (headers m))
  ++ NL ++ String.concat NL (map fst (attached m)).

(** After a line feed: one or more characters other than space and tab,
    then a colon. [seen] tells whether a character was read already. *)
Fixpoint colon_after (seen : bool) (s : string) : bool :=
  match s with
  | EmptyString => false
  | String c rest =>
      if Ascii.eqb c " " || Ascii.eqb c (ascii_of_N 9) then false
      else (seen && Ascii.eqb c ":") || colon_after true rest
  end.

(** The test of [email.header] on a header value, the regular expression
    [\n[^ \t]+:]. *)
Fixpoint embedded_header (s : string) : bool :=
  match s with
  | EmptyString => false
  | String c rest =>
      (Ascii.eqb c LF && colon_after false rest) || embedded_header rest
  end.

(** [as_string] for these messages: a header value that holds a line feed
    followed by another header is refused, with the text of the library's
    error up to the quoted value. Releases of the library that verify the
    folded header refuse further values; the script keeps to this test. *)
Definition serialise (m : mime) : result string :=
  if existsb (fun h => embedded_header (snd h)) (headers m)
  then Raised "header value appears to contain an embedded header"
  else Returned (render m).

Definition may (ok : bool) : result unit :=
  if ok then Returned tt else Raised "connection refused".

#[export] Instance scripted (s : script) : External nat := {|
  gemini_available := true;
  imap_open := fun _ _ w => (may (logins_succeed s), w);
  imap_login := fun _ _ w => (may (logins_succeed s), w);
  imap_search_unseen := fun w => (unseen s w, S w);
  imap_fetch := fun i w => (inbox s i, w);
  smtp_open := fun _ _ w => (may (logins_succeed s), w);
  smtp_starttls := fun w => (may (logins_succeed s), w);
  smtp_login := fun _ _ w => (may (logins_succeed s), w);
  smtp_sendmail := fun _ _ _ w => (sendmail_outcome s, w);
  gemini_init := fun _ w => (Returned tt, w);
  gemini_generate := fun _ w => (gemini_outcome s, w);
  as_string := serialise |}.

Definition sample_config (ai_on : bool) : Config := {|
  cfg_email := {| email := "yash@example.com"; app_password := "app-password";
                  imap_server := "imap.gmail.com"; imap_port := 993;
                  smtp_server := "smtp.gmail.com"; smtp_port := 587 |};
  cfg_agent := Some {| auto_reply := Some true; reply_delay := Some 5%Z;
                       check_interval := Some 30%Z;
                       max_emails_per_check := Some 5%Z |};
  cfg_ai := Some {| enabled := Some ai_on; api_key := Some "secret-key" |} |}.

Definition sample_agent (ai_on connected : bool) : agent := {|
  config := sample_config ai_on;
  imap_conn := if connected then Some Session else None;
  smtp_conn := if connected then Some Session else None;
  processed_emails := ∅;
  gemini_model := if ai_on then Some Session else None |}.

(** A connected agent that has already seen message 1. *)
Definition seen_one : agent := {|
  config := sample_config false;
  imap_conn := Some Session;
  smtp_conn := Some Session;
  processed_emails := {[ "1" ]};
  gemini_model := None |}.

Definition start (a : agent) : sys nat := {| self := a; world := 0%nat; trace := [] |}.

Definition coffee : fetched := {|
  f_subject := "Quick coffee?";
  f_sender := "Jane Doe <jane@x.com>";
  f_date := "Thu, 1 Jan 2026 10:00:00 +0000";
  f_message := Leaf "text/plain" None "Are you free Thursday?" (Some "Are you free Thursday?") |}.

(** One unseen message, number 1, reported by every search. *)
Definition one_message (send_ok : bool) (gemini : result string) : script := {|
  logins_succeed := true;
  unseen := fun _ => Returned (Some ["1"]);
  inbox := fun i => if String.eqb i "1" then Returned (Some coffee) else Returned None;
  sendmail_outcome := if send_ok then Returned tt else Raised "SMTP server disconnected";
  gemini_outcome := gemini |}.

(** The generation service rejects the key and says so. *)
Definition key_rejected : script :=
  one_message true (Raised "400 API key not valid: key=secret-key").

Definition no_drafts : Bot.bot := {| Bot.pending_emails := ∅; Bot.read_emails := ∅ |}.

(** Operator 7 has listed message 1; operator 8 has a draft pending. *)
Definition listed : Bot.bot := {|
  Bot.pending_emails := {[ 8%Z := ("eve@example.com", "Message from Telegram", "hi") ]};
  Bot.read_emails := {[ 7%Z := [make_email_data "1" coffee] ]} |}.

(** The superscript two, [chr(178)]. *)
Definition superscript_two : string := String (ascii_of_N 178) EmptyString.

(** Five hundred times the letter a. *)
Definition long_text : string := String.concat "" (replicate 500 "a").

(** A world in which nothing can be reached. *)
Definition offline : script := {|
  logins_succeed := false;
  unseen := fun _ => Raised "socket error";
  inbox := fun _ => Raised "socket error";
  sendmail_outcome := Raised "please run connect() first";
  gemini_outcome := Raised "service unavailable" |}.

(** A mailbox that lists the given identifiers and delivers every fetch. *)
Definition mailbox (ids : list string) : script := {|
  logins_succeed := true;
  unseen := fun _ => Returned (Some ids);
  inbox := fun _ => Returned (Some coffee);
  sendmail_outcome := Raised "SMTP server disconnected";
  gemini_outcome := Raised "off" |}.

Definition agent_section (auto : bool) (delay cap : Z) : AgentConfig := {|
  auto_reply := Some auto; reply_delay := Some delay;
  check_interval := Some 30%Z; max_emails_per_check := Some cap |}.

(** The generation service is down at its first call and answers from the
    second call on; the world counts the calls made to it. *)
Definition late_service : External nat := {|
  gemini_available := true;
  imap_open := fun _ _ w => (Returned tt, w);
  imap_login := fun _ _ w => (Returned tt, w);
  imap_search_unseen := fun w => (Returned (Some []), w);
  imap_fetch := fun _ w => (Returned None, w);
  smtp_open := fun _ _ w => (Returned tt, w);
  smtp_starttls := fun w => (Returned tt, w);
  smtp_login := fun _ _ w => (Returned tt, w);
  smtp_sendmail := fun _ _ _ w => (Returned tt, w);
  gemini_init := fun _ w => (Returned tt, w);
  gemini_generate := fun _ w =>
    (match w with
     | O => Raised "503 service unavailable"
     | S _ => Returned "Thanks for your message, I will answer tomorrow."
     end, S w);
  as_string := serialise |}.

(** Closing succeeds or fails as a whole. *)
Definition closing (ok : bool) : Closing nat := {|
  imap_close := fun w => (if ok then Returned tt else Raised "socket closed", w);
  imap_logout := fun w => (if ok then Returned tt else Raised "socket closed", w);
  smtp_quit := fun w => (if ok then Returned tt else Raised "socket closed", w) |}.

(** The sample configuration with other values for the agent section. *)
Definition with_agent (c : AgentConfig) : Config := {|
  cfg_email := cfg_email (sample_config false);
  cfg_agent := Some c;
  cfg_ai := cfg_ai (sample_config false) |}.

Definition connected (cfg : Config) : agent := {|
  config := cfg;
  imap_conn := Some Session;
  smtp_conn := Some Session;
  processed_emails := ∅;
  gemini_model := None |}.

End Scripted.

(** * Properties *)

(** ** Strings *)

Module StrFacts.
Import Str.

Lemma prefix_app w s t :
  starts_with w s = true -> starts_with w (s ++ t) = true.
Proof.
  revert s; induction w as [|a w IH]; intros s H; [reflexivity|].
  destruct s as [|b s]; simpl in *; [discriminate|].
  apply andb_true_iff in H as [-> H]. simpl. auto.
Qed.

Lemma prefix_lower w s :
  starts_with w s = true -> starts_with (lower w) (lower s) = true.
Proof.
  revert s; induction w as [|a w IH]; intros s H; [reflexivity|].
  destruct s as [|b s]; simpl in *; [discriminate|].
  apply andb_true_iff in H as [Hab H].
  apply Ascii.eqb_eq in Hab as ->. rewrite Ascii.eqb_refl. simpl. auto.
Qed.

Lemma contains_app_l w s t : contains w s = true -> contains w (s ++ t) = true.
Proof.
  induction s as [|c s IH]; simpl; intros H.
  - rewrite orb_false_r in H. destruct w; [|discriminate].
    destruct t; reflexivity.
  - apply orb_true_iff in H as [H|H]; apply orb_true_iff.
    + left. exact (prefix_app w (String c s) t H).
    + right. auto.
Qed.

Lemma contains_app_r w s t : contains w t = true -> contains w (s ++ t) = true.
Proof.
  intros H. induction s as [|c s IH]; simpl; [exact H|].
  apply orb_true_iff. right. exact IH.
Qed.

Lemma contains_lower w s :
  contains w s = true -> contains (lower w) (lower s) = true.
Proof.
  induction s as [|c s IH]; simpl; intros H.
  - rewrite orb_false_r in H |- *. exact (prefix_lower w EmptyString H).
  - apply orb_true_iff in H as [H|H]; apply orb_true_iff.
    + left. exact (prefix_lower w (String c s) H).
    + right. auto.
Qed.

(** [contains] is the substring relation. *)
Lemma starts_with_iff w s :
  starts_with w s = true <-> exists post, s = w ++ post.
Proof.
  revert s; induction w as [|a w IH]; intros s; simpl.
  - split; [intros _; now exists s | reflexivity].
  - destruct s as [|b s].
    + split; [discriminate | intros [post H]; discriminate].
    + rewrite andb_true_iff, Ascii.eqb_eq, IH. split.
      * intros [-> [post ->]]. now exists post.
      * intros [post H]. injection H as -> ->. split; [reflexivity | now exists post].
Qed.

Lemma contains_iff w s :
  contains w s = true <-> exists pre post, s = pre ++ w ++ post.
Proof.
  induction s as [|c s IH]; simpl.
  - rewrite orb_false_r, starts_with_iff. split.
    + intros [post H]. now exists EmptyString, post.
    + intros [[|? pre] [post H]]; [now exists post | discriminate].
  - rewrite orb_true_iff, starts_with_iff, IH. split.
    + intros [[post H]|[pre [post H]]].
      * now exists EmptyString, post.
      * exists (String c pre), post. simpl. now rewrite H.
    + intros [[|d pre] [post H]].
      * left. now exists post.
      * right. injection H as -> H. now exists pre, post.
Qed.

Lemma has_char_app c s t : has_char c (s ++ t) = has_char c s || has_char c t.
Proof.
  induction s as [|d s IH]; simpl; [reflexivity|].
  rewrite IH. apply orb_assoc.
Qed.

(** No word produced by [split] holds a white-space character. *)
Fixpoint no_space (s : string) : bool :=
  match s with
  | EmptyString => true
  | String c s' => negb (isspace c) && no_space s'
  end.

Lemma no_space_snoc acc c :
  no_space acc = true -> isspace c = false ->
  no_space (acc ++ String c EmptyString) = true.
Proof.
  intros Hacc Hc. induction acc as [|d acc IH]; simpl in *.
  - now rewrite Hc.
  - apply andb_true_iff in Hacc as [-> Hacc]. simpl. auto.
Qed.

Lemma split_acc_no_space s : forall acc w,
  no_space acc = true -> In w (split_acc acc s) -> no_space w = true.
Proof.
  induction s as [|c s IH]; simpl; intros acc w Hacc Hin.
  - destruct (is_empty acc); simpl in Hin; intuition (subst; auto).
  - destruct (isspace c) eqn:Hc.
    + destruct (is_empty acc); simpl in Hin.
      * now apply (IH EmptyString).
      * destruct Hin as [<-|Hin]; [exact Hacc | now apply (IH EmptyString)].
    + eapply IH; [|exact Hin]. now apply no_space_snoc.
Qed.

Lemma split_no_space s w : In w (split s) -> no_space w = true.
Proof. now apply split_acc_no_space. Qed.

Lemma no_space_has_char c s :
  no_space s = true -> isspace c = true -> has_char c s = false.
Proof.
  intros Hs Hc. induction s as [|d s IH]; simpl in *; [reflexivity|].
  apply andb_true_iff in Hs as [Hd Hs]. rewrite (IH Hs), orb_false_r.
  destruct (Ascii.eqb_spec d c) as [->|]; [|reflexivity].
  now rewrite Hc in Hd.
Qed.

End StrFacts.

(** ** The template reply generator *)

Module TemplateFacts.
Import Str Template StrFacts.

Lemma lookup_sender s j b : mk_email s j b !! "sender" = Some s.
Proof. unfold mk_email. by simplify_map_eq. Qed.

Lemma lookup_subject s j b : mk_email s j b !! "subject" = Some j.
Proof. unfold mk_email. by simplify_map_eq. Qed.

Lemma lookup_body s j b : mk_email s j b !! "body" = Some b.
Proof. unfold mk_email. by simplify_map_eq. Qed.

Lemma scan_content_mk s j b :
  scan_content (mk_email s j b) = lower j ++ " " ++ lower b.
Proof.
  unfold scan_content. by rewrite lookup_subject, lookup_body.
Qed.

(** The chain of [if]/[elif] is a scan of the rule table. *)
Lemma generate_by_table (ed : email_data) :
  generate_improved_mock_reply ed
  = template (first_match (scan_content ed))
             (extract_sender_name (default "" (ed !! "sender"))).
Proof.
  unfold generate_improved_mock_reply, first_match, priority_order, matches.
  cbn [List.find keywords].
  repeat match goal with
         | |- context [any_in ?c ?l] => destruct (any_in c l); try reflexivity
         end.
Qed.

(** The test of the code answers true exactly when a keyword occurs. *)
Lemma matches_triggers content c :
  matches content c = true <-> triggers content c.
Proof.
  unfold matches, any_in, triggers, occurs. rewrite existsb_exists.
  split; intros (w & Hin & H); exists w; (split; [exact Hin|]);
    by apply contains_iff.
Qed.

Lemma first_match_at content earlier c later :
  priority_order = (earlier ++ c :: later)%list ->
  triggers content c ->
  (forall c', In c' earlier -> ~ triggers content c') ->
  first_match content = Some c.
Proof.
  intros Horder Hc Hearlier. unfold first_match. rewrite Horder. clear Horder.
  induction earlier as [|d earlier IH]; simpl.
  - by rewrite (proj2 (matches_triggers content c) Hc).
  - destruct (matches content d) eqn:E.
    + exfalso. apply (Hearlier d); [by left | by apply matches_triggers].
    + apply IH. intros c' Hin. apply Hearlier. by right.
Qed.

Lemma first_match_none content :
  (forall c, ~ triggers content c) -> first_match content = None.
Proof.
  intros Hnone. unfold first_match.
  destruct (List.find (matches content) priority_order) as [c|] eqn:E;
    [|reflexivity].
  apply List.find_some in E as [_ E]. exfalso.
  apply (Hnone c). by apply matches_triggers.
Qed.

Lemma extract_sender_name_no_space sender :
  no_space (extract_sender_name sender) = true.
Proof.
  unfold extract_sender_name.
  destruct (contains "<" sender); [|reflexivity].
  destruct (is_empty (strip (before "<" sender))); simpl; [reflexivity|].
  destruct (split (strip (before "<" sender))) as [|w l] eqn:E; [reflexivity|].
  apply (split_no_space (strip (before "<" sender))). rewrite E. now left.
Qed.

Lemma has_LF_name sender : has_char LF (extract_sender_name sender) = false.
Proof. apply no_space_has_char; [apply extract_sender_name_no_space | reflexivity]. Qed.

(** A rendered template holds a line feed only if the name does. *)
Lemma has_LF_template c name :
  has_char LF (template c name) = has_char LF name.
Proof.
  destruct c as [[]|]; cbn [template];
    unfold reply_social, reply_availability, reply_work, reply_meeting,
      reply_business, reply_urgent, reply_question, reply_default;
    rewrite !has_char_app; destruct (has_char LF name); reflexivity.
Qed.

End TemplateFacts.

(** ** Message bodies *)

Module MimeFacts.
Import Str Mime.

(** A part the loop stops at: plain text, not an attachment, decodable. *)
Definition usable (part : message) : bool :=
  plain_inline part
  && match decode_payload part with Some _ => true | None => false end.

Lemma scan_parts_find parts :
  scan_parts parts
  = match List.find usable parts with
    | Some part => default "" (decode_payload part)
    | None => ""
    end.
Proof.
  induction parts as [|part rest IH]; [reflexivity|].
  cbn [scan_parts List.find]. unfold usable at 1.
  destruct (plain_inline part); [|exact IH].
  destruct (decode_payload part) as [body|] eqn:E; cbn [andb].
  - now rewrite E.
  - exact IH.
Qed.

Lemma body_extraction_rule_aux m :
  is_multipart m = true ->
  get_email_body m
  = strip match List.find usable (walk m) with
          | Some part => default "" (decode_payload part)
          | None => ""
          end.
Proof. intros H. unfold get_email_body. now rewrite H, scan_parts_find. Qed.

(** Sample messages. *)
Definition undecodable : message :=
  Leaf "text/plain" None "caf=E9 at noon" None.

Definition two_plain_parts : message :=
  Multipart "multipart/mixed" None
    [ Leaf "text/plain" None "=FF=FE" None;
      Leaf "text/plain" None "See you at noon" (Some "See you at noon") ].

Definition html_only : message :=
  Multipart "multipart/alternative" None
    [ Leaf "text/html" None "<p>Hello</p>" (Some "<p>Hello</p>") ].

End MimeFacts.

(** ** The agent *)

Module AgentFacts.
Import Str Template Mime Agent.
Local Open Scope agent_scope.

(** The prompt that [generate_gemini_reply] sends for a message. *)
Definition prompt_of (ed : email_data) : string :=
  gemini_prompt (extract_sender_name (default "Unknown" (ed !! "sender")))
                (default "No Subject" (ed !! "subject"))
                (take 500 (default "" (ed !! "body"))).

(** Messages of a list that carry identifier [i]. *)
Definition id_count (i : string) (eds : list email_data) : nat :=
  length (filter (fun ed : email_data => ed !! "id" = Some i) eds).

(** A count [n] for identifier [i] over a stretch of the run that takes the
    seen-set from [P] to [P']: nothing for an identifier already seen, at
    most one, and none unless the identifier is seen afterwards. *)
Definition once (P P' : gset string) (i : string) (n : nat) : Prop :=
  (i ∈ P -> n = 0) /\ n <= 1 /\ (0 < n -> i ∈ P').

Lemma once_compose (P P1 P' : gset string) i a b :
  P ⊆ P1 -> P1 ⊆ P' -> once P P1 i a -> once P1 P' i b -> once P P' i (a + b).
Proof.
  intros H1 H2 (Ha0 & Ha1 & Ha2) (Hb0 & Hb1 & Hb2). unfold once.
  destruct (decide (0 < a)) as [Hpos|Hzero].
  - assert (b = 0) by (apply Hb0, Ha2, Hpos).
    repeat split; [intros Hi; specialize (Ha0 Hi); lia | lia | intros _; set_solver].
  - assert (a = 0) by lia. subst a. repeat split.
    + intros Hi. apply Hb0. set_solver.
    + lia.
    + intros Hb. apply Hb2. lia.
Qed.

Lemma once_zero (P P' : gset string) i : once P P' i 0.
Proof. unfold once. repeat split; [lia | lia]. Qed.

Lemma attempts_app i (t l : list event) :
  attempts i (t ++ l)%list = attempts i t + attempts i l.
Proof. unfold attempts. by rewrite filter_app, length_app. Qed.

Lemma attempts_cons i e l :
  attempts i (e :: l) = (if is_attempt i e then 1 else 0) + attempts i l.
Proof.
  unfold attempts. rewrite filter_cons.
  destruct (is_attempt i e); case_decide; simpl; congruence.
Qed.

Lemma id_count_app i (l1 l2 : list email_data) :
  id_count i (l1 ++ l2)%list = id_count i l1 + id_count i l2.
Proof. unfold id_count. by rewrite filter_app, length_app. Qed.

Lemma id_count_cons i (ed : email_data) l :
  id_count i (ed :: l)
  = (if bool_decide (ed !! "id" = Some i) then 1 else 0) + id_count i l.
Proof.
  unfold id_count. rewrite filter_cons. case_bool_decide; case_decide; simpl; congruence.
Qed.

Definition is_log (e : event) : bool :=
  match e with Log _ _ => true | _ => false end.

(** The calls of [send_custom_email] in a trace, with their arguments. *)
Definition send_calls (t : list event) : list (string * string * string) :=
  omap (fun e => match e with
                 | Enter (SendCustomEmail r j b) => Some (r, j, b)
                 | _ => None
                 end) t.

Lemma send_calls_app (t l : list event) :
  send_calls (t ++ l)%list = (send_calls t ++ send_calls l)%list.
Proof. apply omap_app. Qed.

Lemma send_calls_logs l : forallb is_log l = true -> send_calls l = [].
Proof.
  induction l as [|[] l IH]; simpl; intros H; try discriminate; auto.
Qed.

Lemma attempts_nil i : attempts i [] = 0.
Proof. reflexivity. Qed.

Lemma id_count_nil i : id_count i [] = 0.
Proof. reflexivity. Qed.

(** Normalise counts over explicit lists. *)
Ltac tally :=
  repeat first
    [ rewrite attempts_app | rewrite attempts_cons | rewrite attempts_nil
    | rewrite id_count_app | rewrite id_count_cons | rewrite id_count_nil ];
  cbn [is_attempt].

Lemma make_email_data_id email_id m : make_email_data email_id m !! "id" = Some email_id.
Proof. unfold make_email_data. by simplify_map_eq. Qed.

Section Effects.
Context {W : Type} `{Ext : External W}.

Lemma generate_gemini_reply_run ed (s : sys W) :
  generate_gemini_reply ed s
  = match gemini_generate (prompt_of ed) (world s) with
    | (Returned text, w) =>
        (strip text,
         {| self := self s; world := w;
            trace := trace s ++ [Log INFO "Generated Gemini AI reply"] |})
    | (Raised e, w) =>
        (generate_improved_mock_reply ed,
         {| self := self s; world := w;
            trace := trace s ++ [Log ERROR ("Gemini reply generation failed: " ++ e)] |})
    end.
Proof.
  unfold generate_gemini_reply, bind, ext, log, emit, ret. fold (prompt_of ed).
  destruct (gemini_generate (prompt_of ed) (world s)) as [[e|text] w]; reflexivity.
Qed.

(** Generating a reply changes neither the agent nor the count of attempts. *)
Lemma generate_ai_reply_effect ed (s : sys W) :
  self (snd (generate_ai_reply ed s)) = self s
  /\ exists l : list event,
       trace (snd (generate_ai_reply ed s)) = (trace s ++ l)%list
       /\ forall i, attempts i l = 0.
Proof.
  unfold generate_ai_reply, bind, get_self.
  destruct (ai_get enabled false (config (self s))
            && bool_decide (is_Some (gemini_model (self s)))).
  - rewrite generate_gemini_reply_run.
    destruct (gemini_generate (prompt_of ed) (world s)) as [[e|text] w]; simpl;
      (split; [reflexivity | eexists; split; [reflexivity | reflexivity]]).
  - simpl. split; [reflexivity|]. exists []. split; [by rewrite app_nil_r | reflexivity].
Qed.

(** A call of [send_reply] is one attempt; it leaves the agent as it was. *)
Lemma send_reply_effect ed text (s : sys W) :
  self (snd (send_reply ed text s)) = self s
  /\ exists l : list event,
       trace (snd (send_reply ed text s))
       = (trace s ++ Enter (SendReply ed text) :: l)%list
       /\ forall i, attempts i l = 0.
Proof.
  unfold send_reply, bind, get_self, emit, ext, log, emit, ret. simpl.
  destruct (smtp_conn (self s)); simpl.
  - destruct (ed !! "sender") as [to_addr|]; simpl.
    + destruct (ed !! "subject") as [subject|]; simpl.
      * destruct (as_string _) as [e|message]; simpl.
        -- split; [reflexivity|]. rewrite <- !app_assoc; simpl.
           eexists; (split; [reflexivity | reflexivity]).
        -- destruct (smtp_sendmail _ _ _ (world s)) as [[e|u] w]; simpl;
             (split; [reflexivity|]); rewrite <- !app_assoc; simpl;
             eexists; (split; [reflexivity | reflexivity]).
      * split; [reflexivity|]. rewrite <- !app_assoc; simpl.
        eexists; (split; [reflexivity | reflexivity]).
    + split; [reflexivity|]. rewrite <- !app_assoc; simpl.
      eexists; (split; [reflexivity | reflexivity]).
  - split; [reflexivity|]. exists []. split; reflexivity.
Qed.

(** One round of the reply loop: at most one attempt, for the message's own
    identifier. *)
Lemma process_one_effect delay ed (s : sys W) :
  self (snd (process_one delay ed s)) = self s
  /\ exists l : list event,
       trace (snd (process_one delay ed s)) = (trace s ++ l)%list
       /\ forall i, attempts i l <= id_count i [ed].
Proof.
  remember (process_one delay ed s) as r eqn:Hr.
  unfold process_one, processing_error, bind, log, emit in Hr.
  destruct (ed !! "subject") as [subject|] eqn:Hsubj.
  - set (s0 := {| self := self s; world := world s; trace := _ |}) in Hr.
    destruct (generate_ai_reply_effect ed s0) as (Hself & l1 & Htr & Hl1).
    destruct (generate_ai_reply ed s0) as [reply s1]. simpl in Hself, Htr.
    destruct (delay <? 0)%Z.
    + subst r. simpl. split; [by rewrite Hself|].
      rewrite Htr. rewrite <- !app_assoc.
      eexists. split; [reflexivity|]. intros i. simpl.
      tally. rewrite Hl1. lia.
    + set (s2 := {| self := self s1; world := world s1; trace := _ |}) in Hr.
      destruct (send_reply_effect ed reply s2) as (Hself2 & l2 & Htr2 & Hl2).
      destruct (send_reply ed reply s2) as [ok s3]. simpl in Hself2, Htr2.
      assert (self r.2 = self s3
              /\ exists e, trace r.2 = (trace s3 ++ [Log e.1 e.2])%list)
        as (Hs & e & He).
      { subst r. destruct ok; (split; [reflexivity|]).
        - by exists (INFO, "Auto-reply sent successfully").
        - by exists (ERROR, "Failed to send auto-reply"). }
      split; [rewrite Hs, Hself2; simpl; by rewrite Hself|].
      rewrite He, Htr2. simpl. rewrite Htr. simpl.
      rewrite <- !app_assoc. eexists. split; [reflexivity|]. intros i. simpl.
      tally. rewrite Hl1, Hl2. lia.
  - subst r. simpl. split; [reflexivity|].
    eexists. split; [reflexivity|]. intros i. tally. lia.
Qed.

Lemma process_loop_effect delay eds : forall s : sys W,
  self (snd (process_loop delay eds s)) = self s
  /\ exists l : list event,
       trace (snd (process_loop delay eds s)) = (trace s ++ l)%list
       /\ forall i, attempts i l <= id_count i eds.
Proof.
  induction eds as [|ed rest IH]; intros s.
  - simpl. split; [reflexivity|]. exists []. split; [by rewrite app_nil_r|].
    intros i. tally. lia.
  - cbn [process_loop]. unfold bind.
    destruct (process_one_effect delay ed s) as (Hself & l1 & Htr & Hl1).
    destruct (process_one delay ed s) as [[] s1]. simpl in Hself, Htr.
    destruct (IH s1) as (Hself' & l2 & Htr' & Hl2).
    split; [congruence|]. exists (l1 ++ l2)%list.
    split; [rewrite Htr', Htr; by rewrite app_assoc|].
    intros i. specialize (Hl1 i). specialize (Hl2 i).
    revert Hl1. tally. lia.
Qed.

(** The fetch loop: it makes no attempt, the seen-set only grows, and every
    message it adds carries an identifier that was not seen before and is
    seen afterwards, each identifier once. *)
Lemma read_loop_effect ids : forall (acc : list email_data) (s : sys W),
  let r := read_loop ids acc s in
  processed_emails (self s) ⊆ processed_emails (self (snd r))
  /\ (exists l : list event,
        trace (snd r) = (trace s ++ l)%list /\ forall i, attempts i l = 0)
  /\ exists new : list email_data,
       fst r = (acc ++ new)%list
       /\ Forall (fun ed : email_data => exists i, ed !! "id" = Some i
                     /\ (i ∉ processed_emails (self s))
                     /\ (i ∈ processed_emails (self (snd r)))) new
       /\ forall i, once (processed_emails (self s))
                         (processed_emails (self (snd r))) i (id_count i new).
Proof.
  induction ids as [|email_id rest IH]; intros acc s r.
  - subst r. simpl. split; [done|]. split.
    + exists []. split; [by rewrite app_nil_r | reflexivity].
    + exists []. split; [by rewrite app_nil_r|]. split; [constructor|].
      intros i. apply once_zero.
  - assert (Hr : r = read_loop (email_id :: rest) acc s) by reflexivity.
    clearbody r. cbn [read_loop] in Hr. unfold bind at 1, get_self at 1 in Hr.
    destruct (decide (email_id ∈ processed_emails (self s))) as [Hin|Hnew].
    { rewrite Hr. apply IH. }
    unfold bind at 1, ext at 1 in Hr.
    destruct (imap_fetch email_id (world s)) as [[e|[m|]] w].
    + (* the fetch raised *)
      unfold bind at 1, log at 1, emit at 1 in Hr. cbn beta iota zeta in Hr.
      set (s1 := {| self := _; world := _; trace := _ |}) in Hr.
      specialize (IH acc s1). cbn zeta in IH. rewrite <- Hr in IH.
      destruct IH as (Hsub & (l & Htr & Hl) & Hnew').
      split; [exact Hsub|]. split; [|exact Hnew'].
      eexists. split; [rewrite Htr; subst s1; simpl; by rewrite <- app_assoc|].
      intros i. tally. apply Hl.
    + (* fetched *)
      unfold bind at 1, add_processed at 1 in Hr. cbn beta iota zeta in Hr.
      unfold bind at 1, log at 1, emit at 1 in Hr. cbn beta iota zeta in Hr.
      set (s1 := {| self := _; world := _; trace := _ |}) in Hr.
      specialize (IH (acc ++ [make_email_data email_id m])%list s1).
      cbn zeta in IH. rewrite <- Hr in IH.
      destruct IH as (Hsub & (l & Htr & Hl) & new & Hout & Hall & Honce).
      assert (HP1 : processed_emails (self s1) = {[email_id]} ∪ processed_emails (self s))
        by reflexivity.
      split; [set_solver|]. split.
      * eexists. split; [rewrite Htr; subst s1; simpl; by rewrite <- app_assoc|].
        intros i. tally. apply Hl.
      * exists (make_email_data email_id m :: new).
        split; [rewrite Hout; by rewrite <- app_assoc|]. split.
        -- constructor.
           ++ exists email_id. split; [apply make_email_data_id|]. split; [done|set_solver].
           ++ eapply Forall_impl; [exact Hall|]. intros ed (i & Hi & Hni & Hin).
              exists i. split; [done|]. split; [set_solver|done].
        -- intros i. rewrite id_count_cons, make_email_data_id.
           destruct (Honce i) as (H0 & H1 & H2). unfold once.
           case_bool_decide as Heq.
           ++ injection Heq as <-.
              assert (id_count email_id new = 0) as -> by (apply H0; set_solver).
              repeat split; [done | lia | intros _; set_solver].
           ++ assert (i ≠ email_id) by congruence.
              repeat split; [intros ?; apply H0; set_solver | simpl; lia | simpl; done].
    + (* status not OK *)
      set (s1 := {| self := _; world := _; trace := _ |}) in Hr.
      specialize (IH acc s1). cbn zeta in IH. rewrite <- Hr in IH. exact IH.
Qed.

(** [read_new_emails] has the properties of its loop. *)
Lemma read_new_emails_effect (s : sys W) :
  let r := read_new_emails s in
  processed_emails (self s) ⊆ processed_emails (self (snd r))
  /\ (exists l : list event,
        trace (snd r) = (trace s ++ l)%list /\ forall i, attempts i l = 0)
  /\ Forall (fun ed : email_data => exists i, ed !! "id" = Some i
                     /\ (i ∉ processed_emails (self s))
                     /\ (i ∈ processed_emails (self (snd r)))) (fst r)
  /\ forall i, once (processed_emails (self s))
                    (processed_emails (self (snd r))) i (id_count i (fst r)).
Proof.
  intros r. assert (Hr : r = read_new_emails s) by reflexivity. clearbody r.
  unfold read_new_emails, bind, get_self, ext in Hr.
  assert (Hnothing : forall (w : W) (l : list event),
    (forall i, attempts i l = 0) ->
    r = ([], {| self := self s; world := w; trace := trace s ++ l |}) ->
    processed_emails (self s) ⊆ processed_emails (self (snd r))
    /\ (exists l : list event,
          trace (snd r) = (trace s ++ l)%list /\ forall i, attempts i l = 0)
    /\ Forall (fun ed : email_data => exists i, ed !! "id" = Some i
                     /\ (i ∉ processed_emails (self s))
                     /\ (i ∈ processed_emails (self (snd r)))) (fst r)
    /\ forall i, once (processed_emails (self s))
                      (processed_emails (self (snd r))) i (id_count i (fst r))).
  { intros w l Hl ->. simpl. split; [done|]. split; [by exists l|].
    split; [constructor|]. intros i. apply once_zero. }
  destruct (imap_conn (self s)).
  - destruct (imap_search_unseen (world s)) as [[e|[email_ids|]] w].
    + eapply Hnothing; [|exact Hr]. intros i. by tally.
    + set (s1 := {| self := _; world := _; trace := _ |}) in Hr.
      pose proof (read_loop_effect
        (last_slice (agent_get max_emails_per_check 5%Z (config (self s))) email_ids)
        [] s1) as IH.
      cbn zeta in IH. rewrite <- Hr in IH.
      destruct IH as (Hsub & Htr & new & Hout & Hall & Honce).
      simpl in Hout. rewrite Hout. auto.
    + apply (Hnothing w []); [reflexivity|]. by rewrite app_nil_r.
  - apply (Hnothing (world s) []); [reflexivity|]. rewrite app_nil_r, Hr.
    unfold ret. by destruct s.
Qed.

(** One poll cycle. *)
Lemma process_emails_effect (s : sys W) :
  let s' := snd (process_emails s) in
  processed_emails (self s) ⊆ processed_emails (self s')
  /\ exists l : list event,
       trace s' = (trace s ++ l)%list
       /\ forall i, once (processed_emails (self s))
                         (processed_emails (self s')) i (attempts i l).
Proof.
  intros s'. assert (Hs' : s' = snd (process_emails s)) by reflexivity. clearbody s'.
  unfold process_emails, bind, get_self in Hs'.
  destruct (negb (agent_get auto_reply true (config (self s)))).
  - subst s'. simpl. split; [done|]. eexists. split; [reflexivity|].
    intros i. tally. apply once_zero.
  - destruct (read_new_emails_effect s) as (Hsub & (l & Htr & Hl) & Hall & Honce).
    destruct (read_new_emails s) as [new s1]. simpl in Hsub, Htr, Hall, Honce.
    assert (Hloop : s' = snd (process_loop
              (agent_get reply_delay 5%Z (config (self s))) new s1)).
    { rewrite Hs'. by destruct new. }
    clear Hs'.
    destruct (process_loop_effect (agent_get reply_delay 5%Z (config (self s))) new s1)
      as (Hself & l2 & Htr2 & Hl2).
    rewrite <- Hloop in Hself, Htr2. rewrite Hself.
    split; [done|]. exists (l ++ l2)%list.
    split; [rewrite Htr2, Htr; by rewrite app_assoc|].
    intros i. tally. rewrite Hl. specialize (Hl2 i).
    destruct (Honce i) as (H0 & H1 & H2). unfold once. simpl.
    repeat split; [intros Hi; specialize (H0 Hi); lia | lia | intros ?; apply H2; lia].
Qed.

(** Any number of poll cycles. *)
Lemma poll_cycles_effect n : forall s : sys W,
  let s' := snd (poll_cycles n s) in
  processed_emails (self s) ⊆ processed_emails (self s')
  /\ exists l : list event,
       trace s' = (trace s ++ l)%list
       /\ forall i, once (processed_emails (self s))
                         (processed_emails (self s')) i (attempts i l).
Proof.
  induction n as [|n IH]; intros s s'.
  - subst s'. simpl. split; [done|]. exists []. split; [by rewrite app_nil_r|].
    intros i. apply once_zero.
  - assert (Hs' : s' = snd (poll_cycles (S n) s)) by reflexivity. clearbody s'.
    cbn [poll_cycles] in Hs'. unfold bind, get_self, emit in Hs'.
    destruct (process_emails_effect s) as (Hsub & l1 & Htr & Hl1).
    destruct (process_emails s) as [[] s1]. simpl in Hsub, Htr, Hl1.
    simpl in Hs'.
    destruct (agent_get check_interval 30 (config (self s1)) <? 0)%Z.
    { unfold ret in Hs'. simpl in Hs'. subst s'.
      split; [done|]. exists l1. split; [done|]. exact Hl1. }
    set (s2 := {| self := self s1; world := world s1; trace := _ |}) in Hs'.
    specialize (IH s2). cbn zeta in IH. rewrite <- Hs' in IH.
    destruct IH as (Hsub2 & l2 & Htr2 & Hl2). simpl in Hsub2, Htr2, Hl2.
    split; [set_solver|]. eexists.
    split; [rewrite Htr2, Htr, <- !app_assoc; reflexivity|].
    intros i. tally. simpl.
    apply (once_compose _ (processed_emails (self s1))); auto.
Qed.

(** Connecting announces itself, then only logs; it keeps the
    configuration and the seen-set. *)
Lemma connect_email_effect (s : sys W) :
  let r := connect_email s in
  config (self (snd r)) = config (self s)
  /\ processed_emails (self (snd r)) = processed_emails (self s)
  /\ exists l : list event,
       trace (snd r) = (trace s ++ Enter ConnectEmail :: l)%list
       /\ forallb is_log l = true.
Proof.
  intros r. assert (Hr : r = connect_email s) by reflexivity. clearbody r.
  unfold connect_email, connection_failed, bind, get_self, log, emit, ext,
    set_imap_conn, set_smtp_conn, ret in Hr.
  simpl in Hr.
  repeat match type of Hr with
         | context [match ?x with (_, _) => _ end] =>
             lazymatch x with
             | context [match _ with (_, _) => _ end] => fail
             | _ => destruct x as [[?|?] ?]; simpl in Hr
             end
         end;
    subst r; simpl; (split; [reflexivity|]); (split; [reflexivity|]);
    rewrite <- ?app_assoc; simpl; eexists; (split; [reflexivity | reflexivity]).
Qed.

(** The operator's send: what it leaves in the trace. *)
Lemma send_custom_email_run recipient subject body (s : sys W) :
  let entered := {| self := self s; world := world s;
                    trace := trace s ++ [Enter (SendCustomEmail recipient subject body)] |} in
  let s1 := match smtp_conn (self s) with
            | Some _ => entered
            | None => snd (connect_email entered)
            end in
  let from_addr := email (cfg_email (config (self s1))) in
  let r := send_custom_email recipient subject body s in
  match smtp_conn (self s1), as_string (plain_message from_addr recipient subject body) with
  | Some _, Returned text =>
      exists line, trace (snd r)
                   = (trace s1 ++ [SmtpSend from_addr recipient text; line])%list
                   /\ is_log line = true
                   /\ fst r = match fst (smtp_sendmail from_addr recipient text (world s1)) with
                              | Returned _ => true
                              | Raised _ => false
                              end
  | Some _, Raised e =>
      r = (false,
           {| self := self s1; world := world s1;
              trace := trace s1 ++ [Log ERROR ("Failed to send custom email: " ++ e)] |})
  | None, _ =>
      exists line, trace (snd r) = (trace s1 ++ [line])%list
                   /\ is_log line = true /\ fst r = false
  end.
Proof.
  intros entered s1 from_addr r.
  assert (Hr : r = send_custom_email recipient subject body s) by reflexivity.
  clearbody r. subst from_addr s1.
  unfold send_custom_email, bind, get_self, emit, ext, log, emit, ret in Hr.
  cbn beta iota zeta in Hr. cbn [self world trace] in Hr. fold entered in Hr.
  destruct (smtp_conn (self s)) as [c|] eqn:Hc.
  - replace (smtp_conn (self entered)) with (Some c) in * by (symmetry; exact Hc).
    cbn beta iota zeta in Hr.
    destruct (as_string _) as [e|text].
    + subst r. reflexivity.
    + cbn beta iota zeta in Hr.
      destruct (smtp_sendmail _ _ _ (world entered)) as [[e|u] w];
        subst r; cbn [fst snd trace]; rewrite <- app_assoc;
        eexists; repeat split; reflexivity.
  - destruct (connect_email entered) as [ok s1]. cbn [fst snd] in *.
    cbn beta iota zeta in Hr.
    destruct (smtp_conn (self s1)).
    + cbn beta iota zeta in Hr.
      destruct (as_string _) as [e|text].
      * subst r. reflexivity.
      * cbn beta iota zeta in Hr.
        destruct (smtp_sendmail _ _ _ (world s1)) as [[e|u] w];
          subst r; cbn [fst snd trace]; rewrite <- app_assoc;
          eexists; repeat split; reflexivity.
    + subst r. cbn [fst snd trace]. eexists; repeat split; reflexivity.
Qed.

(** Whatever happens inside, [send_custom_email] is entered once. *)
Lemma send_custom_email_calls recipient subject body (s : sys W) :
  exists l : list event,
    trace (snd (send_custom_email recipient subject body s)) = (trace s ++ l)%list
    /\ send_calls l = [(recipient, subject, body)].
Proof.
  pose proof (send_custom_email_run recipient subject body s) as H. cbn zeta in H.
  set (entered := {| self := self s; world := world s; trace := _ |}) in H.
  destruct (smtp_conn (self s)) as [c|] eqn:Hc.
  - replace (smtp_conn (self entered)) with (Some c) in H by (symmetry; exact Hc).
    destruct (as_string _) as [e|text].
    + rewrite H. subst entered. cbn [snd trace].
      rewrite <- app_assoc. eexists. split; [reflexivity|]. reflexivity.
    + destruct H as (line & Htr & Hline & _). rewrite Htr. subst entered. cbn [trace].
      rewrite <- app_assoc. eexists. split; [reflexivity|].
      destruct line; try discriminate. reflexivity.
  - destruct (connect_email_effect entered) as (_ & _ & l & Htr1 & Hl). cbn zeta in Htr1.
    assert (Hgoal : forall tail, send_calls tail = [] ->
      trace (snd (send_custom_email recipient subject body s))
      = (trace (snd (connect_email entered)) ++ tail)%list ->
      exists l0 : list event,
        trace (snd (send_custom_email recipient subject body s)) = (trace s ++ l0)%list
        /\ send_calls l0 = [(recipient, subject, body)]).
    { intros tail Htail ->. rewrite Htr1. subst entered. cbn [trace].
      rewrite <- !app_assoc. eexists. split; [reflexivity|].
      cbn. rewrite send_calls_app, (send_calls_logs l Hl), Htail. reflexivity. }
    destruct (smtp_conn (self (snd (connect_email entered)))).
    + destruct (as_string _) as [e|text].
      * eapply Hgoal; [|rewrite H; reflexivity]. reflexivity.
      * destruct H as (line & Htr & Hline & _). eapply Hgoal; [|exact Htr].
        destruct line; try discriminate. reflexivity.
    + destruct H as (line & Htr & Hline & _). eapply Hgoal; [|exact Htr].
      destruct line; try discriminate. reflexivity.
Qed.

End Effects.
End AgentFacts.

(** * The claims *)

Import Str Template Mime Agent Bot Scripted.
Import StrFacts TemplateFacts MimeFacts AgentFacts.

(** C1, as stated: the categories are scanned over the concatenation of
    the lower-cased subject and body. The code scans the lower-cased
    subject, one space, and the lower-cased body. For the subject [hang]
    and the body [out] no keyword of any category occurs in the
    concatenation [hangout], which calls for the default acknowledgment;
    the code finds [hang out] and answers with the social-invitation
    template. *)
Lemma scan_string_has_a_space :
  lower "hang" ++ lower "out" = "hangout"
  /\ (forall c, ~ triggers (lower "hang" ++ lower "out") c)
  /\ generate_improved_mock_reply (mk_email "" "hang" "out") = reply_social "there"
  /\ reply_social "there" <> reply_default "there".
Proof.
  split; [reflexivity|]. split; [|split; [reflexivity | discriminate]].
  intros c Hc. apply matches_triggers in Hc. destruct c; discriminate Hc.
Qed.

(** C1, amended. For every sender, subject and body the template reply
    generator scans the categories in the order social invitation,
    availability, work, meeting request, business, urgency, question over
    the text made of the lower-cased subject, one space and the lower-cased
    body: the reply is the template of the first category one of whose
    keywords occurs in that text, and the default acknowledgment when no
    keyword of any category occurs in it. A body in which both [urgent] and
    [dinner] occur gets the social-invitation template. *)
Theorem template_priority_scan (sender subject body : string) :
  let content := lower subject ++ " " ++ lower body in
  let name := extract_sender_name sender in
  let reply := generate_improved_mock_reply (mk_email sender subject body) in
  priority_order
    = [Social; Availability; Work; MeetingRequest; Business; Urgency; Question]
  /\ (forall earlier c later,
        priority_order = (earlier ++ c :: later)%list ->
        triggers content c ->
        (forall c', In c' earlier -> ~ triggers content c') ->
        reply = template (Some c) name)
  /\ ((forall c, ~ triggers content c) -> reply = reply_default name)
  /\ (occurs "urgent" body -> occurs "dinner" body -> reply = reply_social name).
Proof.
  intros content name reply.
  assert (Hreply : reply = template (first_match content) name).
  { subst reply. by rewrite generate_by_table, scan_content_mk, lookup_sender. }
  split; [reflexivity|]. split; [|split].
  - intros earlier c later Horder Hc Hearlier.
    by rewrite Hreply, (first_match_at content earlier c later).
  - intros Hnone. by rewrite Hreply, first_match_none.
  - intros _ Hdinner.
    rewrite Hreply, (first_match_at content [] Social (tl priority_order));
      [reflexivity | reflexivity | | intros c' []].
    exists "dinner". split; [by left|].
    apply contains_iff. subst content.
    apply contains_app_r, (contains_app_r "dinner" " ").
    apply (contains_lower "dinner" body). by apply contains_iff.
Qed.

Lemma template_priority_scan_witness :
  generate_improved_mock_reply
    (mk_email "Jane Doe <jane@x.com>" "Tonight" "This is urgent: dinner tonight?")
  = reply_social "Jane"
  /\ generate_improved_mock_reply
       (mk_email "Jane Doe <jane@x.com>" "Deadline" "This is URGENT")
     = reply_urgent "Jane"
  /\ generate_improved_mock_reply
       (mk_email "Jane Doe <jane@x.com>" "Hello" "Good morning")
     = reply_default "Jane".
Proof.
  split; [|split].
  - apply (proj2 (proj2 (proj2 (template_priority_scan
             "Jane Doe <jane@x.com>" "Tonight" "This is urgent: dinner tonight?")))).
    + exists "This is ", ": dinner tonight?". reflexivity.
    + exists "This is urgent: ", " tonight?". reflexivity.
  - apply (proj1 (proj2 (template_priority_scan
             "Jane Doe <jane@x.com>" "Deadline" "This is URGENT"))
             [Social; Availability; Work; MeetingRequest; Business] Urgency [Question]).
    + reflexivity.
    + exists "urgent". split; [simpl; auto|].
      exists "deadline this is ", "". reflexivity.
    + intros c' Hin Hc. apply matches_triggers in Hc.
      simpl in Hin. destruct Hin as [<-|[<-|[<-|[<-|[<-|[]]]]]]; discriminate Hc.
  - apply (proj1 (proj2 (proj2 (template_priority_scan
             "Jane Doe <jane@x.com>" "Hello" "Good morning")))).
    intros c Hc. apply matches_triggers in Hc. destruct c; discriminate Hc.
Defined.

(** C5. The reply of the template generator is to carry line breaks between
    greeting, paragraphs and signature. In the code the separators are the
    two characters backslash and n: no reply holds a line-feed character,
    for any input; on the coffee invitation the reply starts with
    [Dear Jane,] followed by a backslash, and [Best regards,] is not on a
    line of its own. *)
Theorem template_reply_has_no_line_feed :
  (forall ed : email_data,
      has_char LF (generate_improved_mock_reply ed) = false)
  /\ (let reply := generate_improved_mock_reply
                     (mk_email "Jane Doe <jane@x.com>" "Quick coffee?"
                               "Are you free Thursday?") in
      starts_with "Dear Jane,\n\nThank you" reply = true
      /\ starts_with ("Dear Jane," ++ NL) reply = false
      /\ contains (NL ++ "Best regards," ++ NL) reply = false
      /\ contains "\n\nBest regards,\nYash" reply = true).
Proof.
  split.
  - intros ed. rewrite generate_by_table, has_LF_template. apply has_LF_name.
  - vm_compute. repeat split; reflexivity.
Qed.

(** C7, as stated: the body is the first plain-text part that is not an
    attachment, the raw payload decoded as text when there is no such part,
    and the empty string when decoding fails. The code differs on a message
    that is not multipart and does not decode (it returns the raw payload as
    a string) and on a multipart message whose first plain-text part does
    not decode (it goes on to the next one). *)
Lemma body_extraction_differs :
  get_email_body undecodable <> body_as_specified undecodable
  /\ get_email_body two_plain_parts <> body_as_specified two_plain_parts
  /\ get_email_body undecodable = "caf=E9 at noon"
  /\ get_email_body two_plain_parts = "See you at noon"
  /\ get_email_body html_only = "".
Proof. vm_compute. repeat split; discriminate. Qed.

(** C7, amended. For a multipart message the body is the text, stripped of
    surrounding white space, of the first part in [walk] order that is
    [text/plain], whose [Content-Disposition] does not contain [attachment]
    and whose payload decodes; it is the empty string when there is no such
    part. For a message that is not multipart the body is the decoded
    payload, or the raw payload as a string when decoding fails, stripped. *)
Theorem body_extraction_rule (m : message) :
  get_email_body m
  = strip (if is_multipart m
           then match List.find usable (walk m) with
                | Some part => default "" (decode_payload part)
                | None => ""
                end
           else default (str_payload m) (decode_payload m)).
Proof.
  unfold get_email_body. destruct (is_multipart m).
  - now rewrite scan_parts_find.
  - now destruct (decode_payload m).
Qed.

Section AgentClaims.
Context {W : Type} `{Ext : External W}.
Local Open Scope agent_scope.

(** C2. Within one run, over any number of poll cycles and whatever the
    mail servers and the generation service answer, a message identifier
    gets at most one reply attempt, and none when it is already in the
    seen-set. [read_new_emails] makes no attempt itself, returns only
    messages whose identifier was not in the seen-set, and has put each of
    them into the seen-set when it returns, before the reply loop starts;
    [send_reply] never changes the agent, so a failed send leaves the
    identifier in the seen-set. *)
Theorem at_most_one_reply_attempt (n : nat) (s : sys W) :
  (exists l : list event,
      trace (snd (poll_cycles n s)) = (trace s ++ l)%list
      /\ forall i, attempts i l <= 1
                   /\ (i ∈ processed_emails (self s) -> attempts i l = 0))
  /\ (let r := read_new_emails s in
      (exists l : list event,
          trace (snd r) = (trace s ++ l)%list /\ forall i, attempts i l = 0)
      /\ Forall (fun ed : email_data => exists i, ed !! "id" = Some i
                     /\ (i ∉ processed_emails (self s))
                     /\ (i ∈ processed_emails (self (snd r)))) (fst r))
  /\ (forall ed text, self (snd (send_reply ed text s)) = self s).
Proof.
  split; [|split].
  - destruct (poll_cycles_effect n s) as (_ & l & Htr & Hl).
    exists l. split; [exact Htr|]. intros i.
    destruct (Hl i) as (H0 & H1 & _). auto.
  - destruct (read_new_emails_effect s) as (_ & Htr & Hall & _). auto.
  - intros ed text. apply send_reply_effect.
Qed.

(** The part of the fallback law that holds: if the generation service is
    not enabled in the configuration, or the agent holds no model object,
    or the call to the service raises, the text returned by
    [generate_ai_reply] is exactly the text of the template generator for
    the same message. *)
Lemma fallback_law (s : sys W) (ed : email_data) :
  ai_get enabled false (config (self s)) = false
  \/ gemini_model (self s) = None
  \/ (exists e, fst (gemini_generate (prompt_of ed) (world s)) = Raised e) ->
  fst (generate_ai_reply ed s) = generate_improved_mock_reply ed.
Proof.
  intros H. unfold generate_ai_reply, bind, get_self.
  destruct (ai_get enabled false (config (self s))) eqn:Hen; [|reflexivity].
  destruct (gemini_model (self s)) as [model|] eqn:Hmodel; [|reflexivity].
  cbn [andb]. replace (bool_decide (is_Some (Some model))) with true by reflexivity.
  destruct H as [H|[H|[e H]]]; [discriminate | discriminate |].
  rewrite generate_gemini_reply_run. cbn beta iota.
  destruct (gemini_generate (prompt_of ed) (world s)) as [[e'|text] w];
    [reflexivity | discriminate].
Qed.

(** C4, amended. The list-unread command is [read_new_emails] itself: it
    leaves the system in the state [read_new_emails] leaves it in, it lists
    the messages that [read_new_emails] returns, each of these has an
    identifier that was not in the agent's seen-set before the command and
    is in it afterwards, and the seen-set only grows. *)
Theorem list_unread_uses_seen_set (user : Z) (b : bot) (s : sys W) :
  let r := read_command user b s in
  let fetched := read_new_emails s in
  snd r = snd fetched
  /\ snd (fst r) = match fst fetched with
                   | [] => ["No new emails."]
                   | _ => imap listing (fst fetched)
                   end
  /\ processed_emails (self s) ⊆ processed_emails (self (snd r))
  /\ Forall (fun ed : email_data => exists i, ed !! "id" = Some i
                     /\ (i ∉ processed_emails (self s))
                     /\ (i ∈ processed_emails (self (snd r)))) (fst fetched).
Proof.
  intros r fetched.
  assert (Hstate : snd r = snd fetched /\
                   snd (fst r) = match fst fetched with
                                 | [] => ["No new emails."]
                                 | _ => imap listing (fst fetched)
                                 end).
  { subst r fetched. unfold read_command, bind.
    destruct (read_new_emails s) as [[|ed eds] s1]; split; reflexivity. }
  destruct Hstate as (Hstate & Hlist). rewrite Hstate.
  destruct (read_new_emails_effect s) as (Hsub & _ & Hall & _). auto.
Qed.

End AgentClaims.

Lemma at_most_one_reply_attempt_witness :
  "1" ∈ processed_emails (self (start seen_one))
  /\ attempts "1"
       (trace (snd (poll_cycles (Ext := scripted (one_message false (Raised "quota")))
                                3 (start seen_one)))) = 0.
Proof.
  assert (Hin : "1" ∈ processed_emails (self (start seen_one)))
    by (change ("1" ∈ ({[ "1" ]} : gset string)); by apply elem_of_singleton_2).
  split; [exact Hin|].
  destruct (at_most_one_reply_attempt
              (Ext := scripted (one_message false (Raised "quota"))) 3 (start seen_one))
    as ((l & Htr & Hl) & _).
  rewrite Htr. exact (proj2 (Hl "1") Hin).
Defined.

Lemma fallback_law_witness :
  fst (gemini_generate (External := scripted (one_message true (Raised "quota exceeded")))
         (prompt_of (make_email_data "1" coffee)) 0%nat)
  = Raised "quota exceeded"
  /\ fst (generate_ai_reply (Ext := scripted (one_message true (Raised "quota exceeded")))
            (make_email_data "1" coffee) (start (sample_agent true true)))
     = generate_improved_mock_reply (make_email_data "1" coffee).
Proof.
  split; [reflexivity|].
  apply (fallback_law (Ext := scripted (one_message true (Raised "quota exceeded")))).
  right. right. exists "quota exceeded". reflexivity.
Defined.

(** C3. The fallback law: a generation service that is not enabled or was
    not initialised, or whose call fails, leaves the reply to the template
    generator. In the code a start-up that fails at the test call of line
    135 keeps the model object stored on line 132: [setup_gemini] answers
    false and logs the failure, and with [ai.enabled] true
    [generate_ai_reply] still calls the service and returns its stripped
    text when that call succeeds. With a service that is down at start-up
    and answers afterwards, the reply to the coffee invitation is the text
    of the service and not the social-invitation template. *)
Theorem failed_startup_still_uses_service :
  (forall (W : Type) (Ext : External W) (cfg : Config) (k e text : string)
          (w w1 w2 w3 : W) (ed : email_data),
      gemini_available = true ->
      cfg_ai cfg ≫= api_key = Some k ->
      is_empty k || String.eqb k "your-gemini-api-key-here" = false ->
      gemini_init k w = (Returned tt, w1) ->
      gemini_generate "Test message" w1 = (Raised e, w2) ->
      ai_get enabled false cfg = true ->
      gemini_generate (prompt_of ed) w2 = (Returned text, w3) ->
      let started := setup_gemini {| self := fresh_agent cfg; world := w; trace := [] |} in
      fst started = false
      /\ trace (snd started)
         = [Log ERROR "Failed to setup Gemini - check API key configuration"]
      /\ fst (generate_ai_reply ed (snd started)) = strip text)
  /\ (let ed := make_email_data "1" coffee in
      let started := setup_gemini (Ext := late_service)
                       {| self := fresh_agent (sample_config true);
                          world := 0%nat; trace := [] |} in
      fst started = false
      /\ fst (generate_ai_reply (Ext := late_service) ed (snd started))
         = "Thanks for your message, I will answer tomorrow."
      /\ generate_improved_mock_reply ed = reply_social "Jane"
      /\ fst (generate_ai_reply (Ext := late_service) ed (snd started))
         <> generate_improved_mock_reply ed).
Proof.
  split.
  - intros W Ext cfg k e text w w1 w2 w3 ed Hav Hkey Hvalid Hinit Htest Hen Hgen started.
    assert (Hs : started
                 = (false,
                    {| self := {| config := cfg; imap_conn := None; smtp_conn := None;
                                  processed_emails := ∅;
                                  gemini_model := Some Session |};
                       world := w2;
                       trace := [Log ERROR
                         "Failed to setup Gemini - check API key configuration"] |})).
    { subst started.
      unfold setup_gemini, bind, get_self, log, emit, ext, set_gemini_model, ret.
      rewrite Hav. cbn [negb]. cbn beta iota zeta.
      cbn [self world trace fresh_agent config]. rewrite Hkey, Hvalid.
      cbn [self world trace]. rewrite Hinit.
      cbn beta iota zeta. cbn [self world trace]. rewrite Htest. reflexivity. }
    rewrite Hs. cbn [fst snd trace]. split; [reflexivity|]. split; [reflexivity|].
    unfold generate_ai_reply, bind, get_self. cbn [self config gemini_model].
    rewrite Hen. cbn [andb].
    replace (bool_decide (is_Some (Some Session))) with true by reflexivity.
    rewrite generate_gemini_reply_run. cbn [world]. by rewrite Hgen.
  - vm_compute. repeat split; try reflexivity. discriminate.
Qed.

Lemma failed_startup_still_uses_service_witness :
  fst (generate_ai_reply (Ext := late_service) (make_email_data "1" coffee)
         (init (Ext := late_service) (sample_config true) 0%nat))
  = "Thanks for your message, I will answer tomorrow.".
Proof.
  exact (proj2 (proj2 (proj1 failed_startup_still_uses_service
           nat late_service (sample_config true)
           "secret-key" "503 service unavailable"
           "Thanks for your message, I will answer tomorrow."
           0%nat 0%nat 1%nat 2%nat (make_email_data "1" coffee)
           eq_refl eq_refl eq_refl eq_refl eq_refl eq_refl eq_refl))).
Defined.

(** The same mailbox polled three times while every send fails: message 1
    is answered in the first cycle only. *)
Example three_cycles_one_attempt :
  attempts "1"
    (trace (snd (poll_cycles (Ext := scripted (one_message false (Raised "quota")))
                             3 (start (sample_agent false true))))) = 1.
Proof. vm_compute. reflexivity. Qed.

(** C4, as stated: list-unread adds nothing to the seen-set and is not
    filtered by it. On a mailbox that keeps reporting message 1 as unseen,
    the first list-unread puts 1 into the agent's seen-set and lists it; the
    second one finds the identifier in the set and lists nothing. *)
Lemma list_unread_marks_seen :
  let r1 := read_command (Ext := scripted (one_message true (Raised "off")))
                         7 no_drafts (start (sample_agent false true)) in
  let r2 := read_command (Ext := scripted (one_message true (Raised "off")))
                         7 (fst (fst r1)) (snd r1) in
  processed_emails (self (start (sample_agent false true))) = ∅
  /\ processed_emails (self (snd r1)) = {[ "1" ]}
  /\ processed_emails (self (snd r1))
     <> processed_emails (self (start (sample_agent false true)))
  /\ length (snd (fst r1)) = 1
  /\ snd (fst r2) = ["No new emails."].
Proof.
  vm_compute. repeat split; try reflexivity. discriminate.
Qed.

(** C6. On a failing call of the generation service no log line is to carry
    the error text. [generate_gemini_reply] logs one line on that path, and
    the line ends with the error text, whatever the outside is; with a
    service whose error quotes the key, the key is in the log. The start-up
    path [setup_gemini] logs a fixed line on the same failure. *)
Theorem gemini_failure_logs_error_text :
  (forall (W : Type) (Ext : External W) (s : sys W) (ed : email_data),
      trace (snd (generate_gemini_reply ed s))
      = (trace s ++
         [match fst (gemini_generate (prompt_of ed) (world s)) with
          | Raised e => Log ERROR ("Gemini reply generation failed: " ++ e)
          | Returned _ => Log INFO "Generated Gemini AI reply"
          end])%list)
  /\ trace (snd (generate_ai_reply (Ext := scripted key_rejected)
                   (make_email_data "1" coffee) (start (sample_agent true true))))
     = [Log ERROR "Gemini reply generation failed: 400 API key not valid: key=secret-key"]
  /\ contains "secret-key"
       "Gemini reply generation failed: 400 API key not valid: key=secret-key" = true
  /\ trace (snd (setup_gemini (Ext := scripted key_rejected)
                   (start (sample_agent true true))))
     = [Log ERROR "Failed to setup Gemini - check API key configuration"].
Proof.
  split.
  - intros W Ext s ed. rewrite generate_gemini_reply_run.
    destruct (gemini_generate (prompt_of ed) (world s)) as [[e|text] w]; reflexivity.
  - vm_compute. repeat split; reflexivity.
Qed.

(** C8, as stated: every send re-establishes an absent submission session.
    The auto-reply path does not: with no session [send_reply] gives up at
    once, without connecting and without handing anything to the server,
    in a world where connecting would have succeeded. *)
Lemma send_reply_never_reconnects :
  smtp_conn (self (start (sample_agent false false))) = None
  /\ fst (connect_email (Ext := scripted (one_message true (Raised "off")))
                        (start (sample_agent false false))) = true
  /\ send_reply (Ext := scripted (one_message true (Raised "off")))
                (make_email_data "1" coffee) "Hello" (start (sample_agent false false))
     = (false,
        {| self := sample_agent false false; world := 0%nat;
           trace := [Enter (SendReply (make_email_data "1" coffee) "Hello")] |}).
Proof. repeat split; reflexivity. Qed.

Section SendClaims.
Context {W : Type} `{Ext : External W}.

(** C8, amended. [send_custom_email], the operator's send, calls
    [connect_email] first when the submission session is absent; if a
    session object exists afterwards it builds one message from the
    configured address to the recipient, made of the headers From, To and
    Subject and the body as its only part, of subtype plain, and, when that
    message serialises, hands the text to the server; when serialising
    raises it logs the error and fails with nothing handed over; if no
    session exists after connecting it fails. With a session present it
    does the same without connecting. [send_reply], the auto-reply send,
    fails at once when the session is absent, without connecting; with a
    session it treats the message with the subject prefixed by [Re: ] the
    same way. *)
Theorem send_paths (s : sys W) :
  let from_addr := email (cfg_email (config (self s))) in
  (forall recipient subject body,
      let entered := {| self := self s; world := world s;
                        trace := trace s ++ [Enter (SendCustomEmail recipient subject body)] |} in
      let s1 := snd (connect_email entered) in
      let msg := {| headers := [("From", from_addr); ("To", recipient);
                                ("Subject", subject)];
                    attached := [(body, "plain")] |} in
      let r := send_custom_email recipient subject body s in
      smtp_conn (self s) = None ->
      (exists l : list event,
          trace s1 = (trace s ++ [Enter (SendCustomEmail recipient subject body);
                                  Enter ConnectEmail] ++ l)%list
          /\ forallb is_log l = true)
      /\ (is_Some (smtp_conn (self s1)) ->
          (forall text, as_string msg = Returned text ->
             exists line, trace (snd r)
                          = (trace s1 ++ [SmtpSend from_addr recipient text; line])%list
                          /\ is_log line = true)
          /\ (forall e, as_string msg = Raised e ->
                fst r = false
                /\ trace (snd r)
                   = (trace s1 ++ [Log ERROR ("Failed to send custom email: " ++ e)])%list))
      /\ (smtp_conn (self s1) = None ->
          fst r = false
          /\ exists line, trace (snd r) = (trace s1 ++ [line])%list
                          /\ is_log line = true))
  /\ (forall recipient subject body,
        let msg := {| headers := [("From", from_addr); ("To", recipient);
                                  ("Subject", subject)];
                      attached := [(body, "plain")] |} in
        let r := send_custom_email recipient subject body s in
        is_Some (smtp_conn (self s)) ->
        (forall text, as_string msg = Returned text ->
           exists line, trace (snd r)
                        = (trace s ++ [Enter (SendCustomEmail recipient subject body);
                                       SmtpSend from_addr recipient text; line])%list
                        /\ is_log line = true)
        /\ (forall e, as_string msg = Raised e ->
              r = (false,
                   {| self := self s; world := world s;
                      trace := trace s ++ [Enter (SendCustomEmail recipient subject body);
                                           Log ERROR ("Failed to send custom email: " ++ e)] |})))
  /\ (forall ed reply_text,
        smtp_conn (self s) = None ->
        send_reply ed reply_text s
        = (false, {| self := self s; world := world s;
                     trace := trace s ++ [Enter (SendReply ed reply_text)] |}))
  /\ (forall ed reply_text to_addr subject,
        let msg := {| headers := [("From", from_addr); ("To", to_addr);
                                  ("Subject", "Re: " ++ subject)];
                      attached := [(reply_text, "plain")] |} in
        let r := send_reply ed reply_text s in
        is_Some (smtp_conn (self s)) ->
        ed !! "sender" = Some to_addr -> ed !! "subject" = Some subject ->
        (forall text, as_string msg = Returned text ->
           exists line, trace (snd r)
                        = (trace s ++ [Enter (SendReply ed reply_text);
                                       SmtpSend from_addr to_addr text; line])%list
                        /\ is_log line = true)
        /\ (forall e, as_string msg = Raised e ->
              r = (false,
                   {| self := self s; world := world s;
                      trace := trace s ++ [Enter (SendReply ed reply_text);
                                           Log ERROR ("Failed to send reply: " ++ e)] |}))).
Proof.
  intros from_addr. split; [|split; [|split]].
  - intros recipient subject body entered s1 msg r Hnone.
    pose proof (send_custom_email_run recipient subject body s) as H. cbn zeta in H.
    fold entered in H. rewrite Hnone in H. fold s1 in H. fold r in H.
    destruct (connect_email_effect entered) as (Hcfg & _ & l & Htr & Hl).
    cbn zeta in Hcfg, Htr. fold s1 in Hcfg, Htr.
    assert (Hfrom : email (cfg_email (config (self s1))) = from_addr)
      by (rewrite Hcfg; reflexivity).
    rewrite Hfrom in H. unfold plain_message in H. fold msg in H.
    split; [|split].
    + exists l. split; [|exact Hl]. rewrite Htr. subst entered. cbn [trace].
      by rewrite <- app_assoc.
    + intros [c Hc]. rewrite Hc in H. split.
      * intros text Htext. rewrite Htext in H.
        destruct H as (line & Htr' & Hline & _). eauto.
      * intros e He. rewrite He in H. rewrite H. split; reflexivity.
    + intros Hc. rewrite Hc in H. destruct H as (line & Htr' & Hline & Hres). eauto.
  - intros recipient subject body msg r [c Hc].
    pose proof (send_custom_email_run recipient subject body s) as H. cbn zeta in H.
    rewrite Hc in H. cbn [self trace] in H. rewrite Hc in H.
    unfold plain_message in H. fold from_addr in H. fold msg in H. fold r in H.
    split.
    + intros text Htext. rewrite Htext in H.
      destruct H as (line & Htr' & Hline & _). exists line. split; [|exact Hline].
      rewrite Htr'. by rewrite <- app_assoc.
    + intros e He. rewrite He in H. rewrite H. cbn [self world trace].
      by rewrite <- app_assoc.
  - intros ed reply_text Hnone.
    unfold send_reply, bind, get_self, emit, ret. cbn [self]. by rewrite Hnone.
  - intros ed reply_text to_addr subject msg r [c Hc] Hto Hsubj. subst r.
    unfold send_reply, bind, get_self, emit, ext, log, emit, ret.
    cbn [self world trace]. rewrite Hc, Hto, Hsubj. cbn beta iota zeta.
    cbn [self world trace]. unfold plain_message. fold from_addr. fold msg.
    split.
    + intros text ->. cbn beta iota zeta. cbn [self world trace].
      destruct (smtp_sendmail from_addr to_addr text (world s)) as [[e|u] w];
        cbn [snd trace]; rewrite <- !app_assoc; eexists; split; reflexivity.
    + intros e ->. cbn beta iota zeta. cbn [self world trace].
      by rewrite <- app_assoc.
Qed.

End SendClaims.

Lemma send_paths_witness :
  smtp_conn (self (start (sample_agent false false))) = None
  /\ (exists line,
       trace (snd (send_custom_email (Ext := scripted (one_message true (Raised "off")))
                     "bob@example.com" "Message from Telegram" "see you at noon"
                     (start (sample_agent false false))))
       = [Enter (SendCustomEmail "bob@example.com" "Message from Telegram" "see you at noon");
          Enter ConnectEmail;
          Log INFO "Connecting to Gmail IMAP...";
          Log INFO "Connecting to Gmail SMTP...";
          Log INFO "Email connections established";
          SmtpSend "yash@example.com" "bob@example.com"
            (render {| headers := [("From", "yash@example.com"); ("To", "bob@example.com");
                                   ("Subject", "Message from Telegram")];
                       attached := [("see you at noon", "plain")] |});
          line])
  /\ send_custom_email (Ext := scripted (one_message true (Raised "off")))
          "bob@example.com" ("Hello" ++ NL ++ "Bcc: eve@example.com") "see you at noon"
          (start (sample_agent false true))
        = (false,
           {| self := sample_agent false true; world := 0%nat;
              trace := [Enter (SendCustomEmail "bob@example.com"
                                 ("Hello" ++ NL ++ "Bcc: eve@example.com")
                                 "see you at noon");
                        Log ERROR ("Failed to send custom email: "
                                   ++ "header value appears to contain an embedded header")] |}).
Proof.
  split; [reflexivity|].
  pose proof (proj1 (send_paths (Ext := scripted (one_message true (Raised "off")))
                       (start (sample_agent false false)))) as Habsent.
  pose proof (proj1 (proj2 (send_paths (Ext := scripted (one_message true (Raised "off")))
                              (start (sample_agent false true))))) as Hpresent.
  split.
  - destruct (Habsent "bob@example.com" "Message from Telegram" "see you at noon" eq_refl)
      as (_ & Hsend & _).
    destruct (Hsend (ex_intro _ Session eq_refl)) as (Hok & _).
    destruct (Hok _ eq_refl) as (line & Htr & _).
    exists line. exact Htr.
  - destruct (Hpresent "bob@example.com" ("Hello" ++ NL ++ "Bcc: eve@example.com")
                "see you at noon" (ex_intro _ Session eq_refl)) as (_ & Hraised).
    exact (Hraised _ eq_refl).
Defined.

Section DraftClaims.
Context {W : Type} `{Ext : External W}.

(** C9. With no pending draft for the operator, cancel and approve each
    report that nothing is pending and leave the draft map (and, for
    approve, the whole system) as it was. After a compose that succeeded
    (a recipient and at least one word), approve removes that operator's
    draft, touches no other draft, and calls the send operation exactly
    once, with the composed draft. *)
Theorem draft_lifecycle (user : Z) (b : bot) (s : sys W) :
  (pending_emails b !! user = None ->
   cancel_command user b = (b, ["No pending email to cancel."])
   /\ approve_command user b s = ((b, ["No pending email to approve."]), s))
  /\ (forall recipient word words,
        let draft := (recipient, "Message from Telegram",
                      String.concat " " (word :: words)) in
        let b1 := fst (mail_command user (recipient :: word :: words) b) in
        let r := approve_command user b1 s in
        pending_emails b1 !! user = Some draft
        /\ pending_emails (fst (fst r)) !! user = None
        /\ pending_emails (fst (fst r)) = delete user (pending_emails b)
        /\ exists l : list event,
             trace (snd r) = (trace s ++ l)%list /\ send_calls l = [draft]).
Proof.
  split.
  - intros Hnone. unfold cancel_command, approve_command. rewrite Hnone.
    unfold set_pending. rewrite (delete_id _ _ Hnone). by destruct b.
  - intros recipient word words draft b1 r.
    assert (Hb1 : pending_emails b1 = <[user := draft]> (pending_emails b))
      by reflexivity.
    assert (Hdraft : pending_emails b1 !! user = Some draft)
      by (rewrite Hb1; apply lookup_insert_eq).
    split; [exact Hdraft|].
    assert (Hr : r = approve_command user b1 s) by reflexivity. clearbody r.
    unfold approve_command, Agent.bind, Agent.ret in Hr. rewrite Hdraft in Hr.
    subst draft. cbn beta iota zeta in Hr.
    destruct (send_custom_email_calls recipient "Message from Telegram"
                (String.concat " " (word :: words)) s) as (l & Htr & Hl).
    destruct (send_custom_email recipient "Message from Telegram"
                (String.concat " " (word :: words)) s) as [ok s1].
    subst r. cbn [fst snd set_pending pending_emails] in *.
    split; [apply lookup_delete_eq|]. split; [|by exists l].
    fold b1. rewrite Hb1. apply delete_insert_eq.
Qed.

(** C10. Approve removes the draft before it sends: when the send fails the
    operator is told so, the draft is gone from the map all the same, and
    approving again finds nothing pending and sends nothing. *)
Theorem approve_drops_draft_when_send_fails (user : Z) (b : bot) (s : sys W)
    (recipient subject body : string) :
  pending_emails b !! user = Some (recipient, subject, body) ->
  fst (send_custom_email recipient subject body s) = false ->
  let r := approve_command user b s in
  snd (fst r) = ["❌ Failed to send email."]
  /\ pending_emails (fst (fst r)) = delete user (pending_emails b)
  /\ pending_emails (fst (fst r)) !! user = None
  /\ approve_command user (fst (fst r)) (snd r)
     = ((fst (fst r), ["No pending email to approve."]), snd r).
Proof.
  intros Hdraft Hfail r.
  assert (Hr : r = approve_command user b s) by reflexivity. clearbody r.
  unfold approve_command, Agent.bind, Agent.ret in Hr. rewrite Hdraft in Hr.
  cbn beta iota zeta in Hr.
  destruct (send_custom_email recipient subject body s) as [ok s1].
  cbn [fst] in Hfail. subst ok r. cbn [fst snd set_pending pending_emails].
  split; [reflexivity|]. split; [reflexivity|].
  assert (Hgone : delete user (pending_emails b) !! user = None)
    by apply lookup_delete_eq.
  split; [exact Hgone|].
  unfold approve_command. cbn [pending_emails set_pending read_emails].
  rewrite Hgone. unfold Agent.ret. by rewrite (delete_id _ _ Hgone).
Qed.

End DraftClaims.

Lemma draft_lifecycle_witness :
  pending_emails no_drafts !! 7%Z = None
  /\ cancel_command 7 no_drafts = (no_drafts, ["No pending email to cancel."])
  /\ approve_command (Ext := scripted (one_message true (Raised "off")))
       7 no_drafts (start (sample_agent false true))
     = ((no_drafts, ["No pending email to approve."]), start (sample_agent false true)).
Proof.
  split; [reflexivity|].
  exact (proj1 (draft_lifecycle (Ext := scripted (one_message true (Raised "off")))
                  7 no_drafts (start (sample_agent false true))) eq_refl).
Defined.

Lemma approve_drops_draft_when_send_fails_witness :
  let b := fst (mail_command 7 ["bob@example.com"; "see"; "you"] no_drafts) in
  let r := approve_command (Ext := scripted (one_message false (Raised "off")))
             7 b (start (sample_agent false true)) in
  pending_emails b !! 7%Z
  = Some ("bob@example.com", "Message from Telegram", "see you")
  /\ snd (fst r) = ["❌ Failed to send email."]
  /\ pending_emails (fst (fst r)) !! 7%Z = None.
Proof.
  intros b r. split; [reflexivity|].
  destruct (approve_drops_draft_when_send_fails
              (Ext := scripted (one_message false (Raised "off")))
              7 b (start (sample_agent false true))
              "bob@example.com" "Message from Telegram" "see you"
              eq_refl eq_refl) as (Hmsg & _ & Hgone & _).
  split; [exact Hmsg | exact Hgone].
Defined.

(** * Further properties of the code *)

(** ** Strings, names and templates *)

Module StrMore.
Import Str StrFacts.

Lemma lower_char_idem c : lower_char (lower_char c) = lower_char c.
Proof. destruct c as [[] [] [] [] [] [] [] []]; reflexivity. Qed.

Lemma lower_idem s : lower (lower s) = lower s.
Proof.
  induction s as [|c s IH]; simpl; [reflexivity|].
  now rewrite lower_char_idem, IH.
Qed.

(** The first and the last character of a string. *)
Definition first_char (s : string) : option ascii :=
  match s with EmptyString => None | String c _ => Some c end.

Fixpoint last_char (s : string) : option ascii :=
  match s with
  | EmptyString => None
  | String c s' => match last_char s' with Some d => Some d | None => Some c end
  end.

Definition not_space (o : option ascii) : Prop :=
  match o with Some c => isspace c = false | None => True end.

Lemma lstrip_first s : not_space (first_char (lstrip s)).
Proof.
  induction s as [|c s IH]; simpl; [exact I|].
  destruct (isspace c) eqn:Hc; [exact IH | exact Hc].
Qed.

Lemma lstrip_clean s : not_space (first_char s) -> lstrip s = s.
Proof. destruct s as [|c s]; simpl; [reflexivity|]. now intros ->. Qed.

Lemma rstrip_first s : not_space (first_char s) -> not_space (first_char (rstrip s)).
Proof.
  destruct s as [|c s]; simpl; [intros _; exact I|]. intros Hc. now rewrite Hc.
Qed.

Lemma rstrip_last s : not_space (last_char (rstrip s)).
Proof.
  induction s as [|c s IH]; simpl; [exact I|].
  destruct (isspace c) eqn:Hc; simpl.
  - destruct (rstrip s) eqn:E; simpl in *; [exact I|].
    destruct (last_char s0); [exact IH | exact IH].
  - destruct (last_char (rstrip s)); [exact IH | exact Hc].
Qed.

Lemma rstrip_clean s : not_space (last_char s) -> rstrip s = s.
Proof.
  induction s as [|c s IH]; simpl; [reflexivity|].
  destruct (last_char s) as [d|] eqn:E; intros H.
  - rewrite (IH H). destruct s; [discriminate|]. simpl. now rewrite andb_false_r.
  - destruct s as [|e s]; [|simpl in E; destruct (last_char s); discriminate].
    simpl. now rewrite H.
Qed.

Lemma strip_idem s : strip (strip s) = strip s.
Proof.
  unfold strip.
  rewrite (lstrip_clean (rstrip (lstrip s))) by apply rstrip_first, lstrip_first.
  apply rstrip_clean, rstrip_last.
Qed.

(** [split] starts with a non-empty word once a word has begun. *)
Lemma split_acc_head s : forall acc,
  acc <> EmptyString ->
  exists w l, split_acc acc s = w :: l /\ w <> EmptyString.
Proof.
  induction s as [|c s IH]; intros acc Hacc; simpl.
  - destruct acc; [congruence|]. simpl. eauto.
  - destruct (isspace c).
    + destruct acc; [congruence|]. simpl. eauto.
    + apply IH. destruct acc; discriminate.
Qed.

Lemma split_head s :
  s <> EmptyString -> not_space (first_char s) ->
  exists w l, split s = w :: l /\ w <> EmptyString.
Proof.
  destruct s as [|c s]; [congruence|]. simpl. intros _ Hc.
  unfold split. simpl. rewrite Hc. apply split_acc_head. discriminate.
Qed.

Lemma strip_first s : not_space (first_char (strip s)).
Proof. apply rstrip_first, lstrip_first. Qed.

(** String append, which [simpl] leaves folded. *)
Lemma sapp_cons c (s t : string) : String c s ++ t = String c (s ++ t).
Proof. reflexivity. Qed.

Lemma sapp_nil_r (s : string) : s ++ EmptyString = s.
Proof. induction s as [|c s IH]; [reflexivity|]. now rewrite sapp_cons, IH. Qed.

Lemma sapp_assoc (s t u : string) : (s ++ t) ++ u = s ++ t ++ u.
Proof. induction s as [|c s IH]; [reflexivity|]. now rewrite !sapp_cons, IH. Qed.

(** For a word [w] without white space: what [before], [rstrip] and [split]
    do to a text that starts with [w]. *)
Lemma before_app w t sep :
  has_char sep w = false -> before sep (w ++ t) = w ++ before sep t.
Proof.
  induction w as [|c w IH]; [reflexivity|]. rewrite !sapp_cons. simpl.
  intros H. apply orb_false_iff in H as [Hc Hw]. now rewrite Hc, IH.
Qed.

Lemma split_acc_word w : forall acc t c,
  no_space w = true -> isspace c = true -> acc ++ w <> EmptyString ->
  exists l, split_acc acc (w ++ String c t) = (acc ++ w) :: l.
Proof.
  induction w as [|d w IH]; intros acc t c Hw Hc Hne.
  - change (EmptyString ++ String c t) with (String c t). simpl. rewrite Hc.
    rewrite sapp_nil_r in *. destruct acc; [congruence|]. simpl. eauto.
  - rewrite sapp_cons. simpl. simpl in Hw. apply andb_true_iff in Hw as [Hd Hw].
    apply negb_true_iff in Hd. rewrite Hd.
    destruct (IH (acc ++ String d EmptyString) t c Hw Hc) as [l H].
    + rewrite sapp_assoc. exact Hne.
    + exists l. rewrite H. now rewrite sapp_assoc.
Qed.

Lemma split_acc_whole w : forall acc,
  no_space w = true -> acc ++ w <> EmptyString -> split_acc acc w = [acc ++ w].
Proof.
  induction w as [|d w IH]; intros acc Hw Hne.
  - rewrite sapp_nil_r in *. simpl. destruct acc; [congruence | reflexivity].
  - simpl. simpl in Hw. apply andb_true_iff in Hw as [Hd Hw].
    apply negb_true_iff in Hd. rewrite Hd.
    rewrite IH; [now rewrite sapp_assoc | exact Hw |].
    rewrite sapp_assoc. exact Hne.
Qed.

Lemma rstrip_app_word w t :
  no_space w = true -> w <> EmptyString -> rstrip (w ++ t) = w ++ rstrip t.
Proof.
  induction w as [|d w IH]; [congruence|]. intros Hw _.
  rewrite !sapp_cons. simpl. simpl in Hw. apply andb_true_iff in Hw as [Hd Hw].
  apply negb_true_iff in Hd. rewrite Hd. simpl.
  destruct w as [|e w]; [reflexivity|]. now rewrite IH.
Qed.

End StrMore.

Module TemplateMore.
Import Str Template StrFacts TemplateFacts StrMore.

Lemma contains_char c s : contains (String c EmptyString) s = has_char c s.
Proof.
  induction s as [|d s IH]; simpl; [reflexivity|].
  rewrite IH, andb_true_r, Ascii.eqb_sym. reflexivity.
Qed.

Lemma no_space_first w : no_space w = true -> not_space (first_char w).
Proof.
  destruct w as [|c w]; simpl; [intros _; exact I|].
  intros H. apply andb_true_iff in H as [H _]. now apply negb_true_iff.
Qed.

(** The text between the greeting and the signature, per category. *)
Definition paragraphs (c : option category) : string :=
  match c with
  | Some Social => "Thank you for the invitation! I'd love to catch up. Let me check my schedule and I'll get back to you shortly with some available times.\n\nLooking forward to it!"
  | Some Availability => "Thanks for reaching out about my availability. I'll review my calendar and send you some time slots that work for both of us.\n\nI'll get back to you within a few hours."
  | Some Work => "Thank you for your message regarding work matters. I've received your request and will review it promptly.\n\nI'll respond with the necessary information soon."
  | Some MeetingRequest => "Thank you for reaching out about scheduling a meeting. I'll review my calendar and get back to you shortly with my availability."
  | Some Business => "Thank you for your message regarding the business opportunity. I'm interested in learning more about this collaboration.\n\nI'll review the details and respond with my thoughts soon."
  | Some Urgency => "I've received your urgent message and will prioritize reviewing it immediately. You can expect a detailed response within the next hour."
  | Some Question => "Thank you for your question. I'll look into this and provide you with a comprehensive answer shortly."
  | None => "Thank you for your email. I've received your message and will review it carefully. I'll get back to you with a detailed response soon."
  end.

Lemma template_shape c name :
  template c name
  = "Dear " ++ name ++ ",\n\n" ++ paragraphs c ++ "\n\nBest regards,\nYash".
Proof. destruct c as [[]|]; reflexivity. Qed.

End TemplateMore.

Import StrMore TemplateMore.

(** X1. The name used in the greeting is never empty and holds no white
    space; it is [there] unless the sender string contains [<]. *)
Theorem sender_name_never_empty (sender : string) :
  extract_sender_name sender <> EmptyString
  /\ no_space (extract_sender_name sender) = true
  /\ (contains "<" sender = true \/ extract_sender_name sender = "there").
Proof.
  split; [|split; [apply extract_sender_name_no_space|]].
  - unfold extract_sender_name.
    destruct (contains "<" sender); [|discriminate].
    destruct (is_empty (strip (before "<" sender))) eqn:E; simpl; [discriminate|].
    destruct (split_head (strip (before "<" sender))) as (w & l & -> & Hw).
    + intros H. now rewrite H in E.
    + apply strip_first.
    + exact Hw.
  - unfold extract_sender_name. destruct (contains "<" sender); auto.
Qed.

(** X2. When the sender string is a first word without white space or [<],
    a space, any further text without [<], and then [<] and the address,
    the greeting uses exactly that first word. *)
Theorem sender_name_is_first_word (first rest addr : string) :
  first <> EmptyString -> no_space first = true ->
  has_char "<" first = false -> has_char "<" rest = false ->
  extract_sender_name (first ++ " " ++ rest ++ "<" ++ addr) = first.
Proof.
  intros Hne Hsp Hf Hr. unfold extract_sender_name.
  assert (Hin : contains "<" (first ++ " " ++ rest ++ "<" ++ addr) = true).
  { rewrite contains_char, !has_char_app. simpl. now rewrite !orb_true_r. }
  rewrite Hin.
  assert (Hbefore : before "<" (first ++ " " ++ rest ++ "<" ++ addr)
                    = first ++ " " ++ rest).
  { rewrite (before_app first) by exact Hf. f_equal.
    rewrite (before_app " ") by reflexivity. f_equal.
    rewrite (before_app rest) by exact Hr.
    change ("<" ++ addr) with (String "<" addr). simpl. apply sapp_nil_r. }
  rewrite Hbefore. unfold strip.
  rewrite lstrip_clean.
  2:{ destruct first as [|c w]; [congruence|]. rewrite sapp_cons.
      exact (no_space_first (String c w) Hsp). }
  rewrite (rstrip_app_word first) by assumption.
  assert (Hnonempty : is_empty (first ++ rstrip (" " ++ rest)) = false)
    by (destruct first; [congruence | reflexivity]).
  rewrite Hnonempty. cbn [negb].
  destruct (rstrip (" " ++ rest)) as [|c t] eqn:E.
  - rewrite sapp_nil_r. unfold split.
    rewrite split_acc_whole; [reflexivity | exact Hsp | exact Hne].
  - assert (Hc : isspace c = true).
    { change (" " ++ rest) with (String " " rest) in E. simpl in E.
      destruct (is_empty (rstrip rest)); [discriminate|]. now injection E as <- _. }
    unfold split.
    destruct (split_acc_word first EmptyString t c Hsp Hc Hne) as [l ->].
    reflexivity.
Qed.

Lemma sender_name_is_first_word_witness :
  extract_sender_name ("Jane" ++ " " ++ "Doe " ++ "<" ++ "jane@x.com>") = "Jane".
Proof.
  apply sender_name_is_first_word; [discriminate | reflexivity | reflexivity | reflexivity].
Defined.

(** X3. Classification ignores letter case: the reply for a subject and a
    body is the reply for their lower-cased forms. *)
Theorem reply_ignores_case (sender subject body : string) :
  generate_improved_mock_reply (mk_email sender subject body)
  = generate_improved_mock_reply (mk_email sender (lower subject) (lower body)).
Proof.
  rewrite !generate_by_table, !scan_content_mk, !lookup_sender, !lower_idem.
  reflexivity.
Qed.

(** Whatever the message, the reply is the greeting [Dear <name>,], one
    of eight fixed texts, and the fixed signature, joined by the two
    characters backslash and n; the sender occurs only in the greeting and
    the subject and body only select the text. *)
Theorem reply_shape (ed : email_data) :
  exists c : option category,
    generate_improved_mock_reply ed
    = "Dear " ++ extract_sender_name (default "" (ed !! "sender")) ++ ",\n\n"
      ++ paragraphs c ++ "\n\nBest regards,\nYash"
    /\ c = first_match (scan_content ed).
Proof.
  exists (first_match (scan_content ed)).
  split; [|reflexivity]. rewrite generate_by_table. apply template_shape.
Qed.

(** ** Message bodies *)

(** X4. An extracted body has no white space at either end, so stripping it
    again changes nothing. *)
Theorem body_is_stripped (m : message) :
  strip (get_email_body m) = get_email_body m
  /\ not_space (first_char (get_email_body m))
  /\ not_space (last_char (get_email_body m)).
Proof.
  unfold get_email_body. split; [apply strip_idem|].
  split; [apply strip_first | apply rstrip_last].
Qed.

(** X5. The body of a multipart message is empty, or it is the stripped
    text of a part of the message that is [text/plain], whose
    [Content-Disposition], as a string, does not contain the lower-case
    text [attachment], and that decodes to that text. The test on the
    disposition is sensitive to case: a plain part whose disposition does
    not contain the lower-case text, such as one marked
    [ATTACHMENT; filename=notes.txt], is taken for the body. *)
Theorem body_comes_from_a_plain_part :
  (forall m : message,
      is_multipart m = true ->
      get_email_body m = EmptyString
      \/ exists part text,
           In part (walk m)
           /\ get_content_type part = "text/plain"
           /\ contains "attachment" (disposition_str part) = false
           /\ decode_payload part = Some text
           /\ get_email_body m = strip text)
  /\ (forall content_type disposition marked raw text,
        contains "attachment" marked = false ->
        get_email_body
          (Multipart content_type disposition
             [Leaf "text/plain" (Some marked) raw (Some text)])
        = strip text)
  /\ contains "attachment" "ATTACHMENT; filename=notes.txt" = false.
Proof.
  split; [|split; [|reflexivity]].
  - intros m Hmulti. rewrite body_extraction_rule_aux by exact Hmulti.
    destruct (List.find usable (walk m)) as [part|] eqn:Hfind; [|now left].
    right. apply List.find_some in Hfind as [Hin Huse].
    unfold usable, plain_inline in Huse.
    apply andb_true_iff in Huse as [Hplain Hdec].
    apply andb_true_iff in Hplain as [Hct Hatt].
    destruct (decode_payload part) as [text|] eqn:E; [|discriminate].
    exists part, text. repeat split; auto.
    + now apply String.eqb_eq.
    + now apply negb_true_iff.
  - intros content_type disposition marked raw text Hmarked.
    unfold get_email_body. cbn [is_multipart walk flat_map app scan_parts].
    assert (Hleaf : plain_inline (Leaf "text/plain" (Some marked) raw (Some text)) = true).
    { unfold plain_inline, disposition_str. cbn [get_content_type].
      change (default "None" (Some marked)) with marked. by rewrite Hmarked. }
    rewrite Hleaf. cbn [decode_payload].
    by destruct (plain_inline (Multipart content_type disposition _)).
Qed.

Lemma body_comes_from_a_plain_part_witness :
  (get_email_body two_plain_parts = EmptyString
   \/ exists part text,
        In part (walk two_plain_parts)
        /\ get_content_type part = "text/plain"
        /\ contains "attachment" (disposition_str part) = false
        /\ decode_payload part = Some text
        /\ get_email_body two_plain_parts = strip text)
  /\ get_email_body
       (Multipart "multipart/mixed" None
          [Leaf "text/plain" (Some "ATTACHMENT; filename=notes.txt")
             "bm90ZXM=" (Some "notes")])
     = "notes".
Proof.
  split.
  - exact (proj1 body_comes_from_a_plain_part two_plain_parts eq_refl).
  - exact (proj1 (proj2 body_comes_from_a_plain_part)
             "multipart/mixed" None "ATTACHMENT; filename=notes.txt"
             "bm90ZXM=" "notes" eq_refl).
Defined.

(** ** The agent *)

Module AgentMore.
Import Str Template Mime Agent AgentFacts.
Local Open Scope agent_scope.

(** Events that hand nothing to a server and start no send. *)
Definition is_passive (e : event) : bool :=
  match e with Log _ _ | Slept _ => true | _ => false end.

(** The messages handed to the submission server in a trace. *)
Definition sends (t : list event) : list (string * string * string) :=
  omap (fun e => match e with
                 | SmtpSend f r x => Some (f, r, x)
                 | _ => None
                 end) t.

Lemma sends_app (t l : list event) : sends (t ++ l)%list = (sends t ++ sends l)%list.
Proof. apply omap_app. Qed.

Lemma logs_passive l : forallb is_log l = true -> forallb is_passive l = true.
Proof.
  induction l as [|[] l IH]; simpl; intros H; try discriminate; auto.
Qed.

Lemma passive_sends l : forallb is_passive l = true -> sends l = [].
Proof.
  induction l as [|[] l IH]; simpl; intros H; try discriminate; auto.
Qed.

Lemma passive_attempts l i : forallb is_passive l = true -> attempts i l = 0.
Proof.
  induction l as [|e l IH]; [reflexivity|]. simpl. intros H.
  apply andb_true_iff in H as [He Hl]. rewrite attempts_cons, (IH Hl).
  destruct e; try discriminate; reflexivity.
Qed.

Lemma passive_send_calls l : forallb is_passive l = true -> send_calls l = [].
Proof.
  induction l as [|[] l IH]; simpl; intros H; try discriminate; auto.
Qed.

Lemma forallb_app_true {A} (p : A -> bool) (l1 l2 : list A) :
  forallb p l1 = true -> forallb p l2 = true -> forallb p (l1 ++ l2)%list = true.
Proof. intros H1 H2. rewrite forallb_app, H1, H2. reflexivity. Qed.

(** The agent apart from its seen-set. *)
Definition same_but_seen (a a' : agent) : Prop :=
  config a' = config a /\ imap_conn a' = imap_conn a
  /\ smtp_conn a' = smtp_conn a /\ gemini_model a' = gemini_model a.

Lemma same_but_seen_refl a : same_but_seen a a.
Proof. repeat split. Qed.

Lemma same_but_seen_trans a b c :
  same_but_seen a b -> same_but_seen b c -> same_but_seen a c.
Proof. unfold same_but_seen. intuition congruence. Qed.

(** The five keys of a fetched message. *)
Definition has_keys (ed : email_data) : Prop :=
  is_Some (ed !! "id") /\ is_Some (ed !! "subject") /\ is_Some (ed !! "sender")
  /\ is_Some (ed !! "body") /\ is_Some (ed !! "date").

Lemma make_email_data_keys email_id m : has_keys (make_email_data email_id m).
Proof. unfold has_keys, make_email_data. repeat split; by simplify_map_eq. Qed.

(** [l[-n:]] for a positive [n] keeps at most [n] items, and always keeps a
    suffix. *)
Lemma last_slice_length {A} (n : Z) (l : list A) :
  (0 < n)%Z -> length (last_slice n l) <= Z.to_nat n.
Proof.
  intros Hn. unfold last_slice. destruct (0 <? n)%Z eqn:E; [|lia].
  rewrite length_drop. lia.
Qed.

Lemma last_slice_suffix {A} (n : Z) (l : list A) :
  exists skipped, l = (skipped ++ last_slice n l)%list.
Proof.
  unfold last_slice. destruct (0 <? n)%Z; eexists; symmetry; apply take_drop.
Qed.

Section MoreEffects.
Context {W : Type} `{Ext : External W}.

Lemma generate_ai_reply_logs ed (s : sys W) :
  self (snd (generate_ai_reply ed s)) = self s
  /\ exists l : list event,
       trace (snd (generate_ai_reply ed s)) = (trace s ++ l)%list
       /\ forallb is_log l = true.
Proof.
  unfold generate_ai_reply, bind, get_self.
  destruct (ai_get enabled false (config (self s))
            && bool_decide (is_Some (gemini_model (self s)))).
  - rewrite generate_gemini_reply_run.
    destruct (gemini_generate (prompt_of ed) (world s)) as [[e|text] w]; simpl;
      (split; [reflexivity | eexists; split; [reflexivity | reflexivity]]).
  - simpl. split; [reflexivity|]. exists []. split; [by rewrite app_nil_r | reflexivity].
Qed.

(** The fetch loop once more: it only logs, changes nothing of the agent but
    the seen-set, adds at most one message per identifier offered, and every
    message it adds has the five keys. *)
Lemma read_loop_more ids : forall (acc : list email_data) (s : sys W),
  let r := read_loop ids acc s in
  same_but_seen (self s) (self (snd r))
  /\ (exists l : list event,
        trace (snd r) = (trace s ++ l)%list /\ forallb is_log l = true)
  /\ exists new : list email_data,
       fst r = (acc ++ new)%list
       /\ length new <= length ids
       /\ Forall has_keys new.
Proof.
  induction ids as [|email_id rest IH]; intros acc s r.
  - subst r. simpl. split; [apply same_but_seen_refl|]. split.
    + exists []. split; [by rewrite app_nil_r | reflexivity].
    + exists []. split; [by rewrite app_nil_r|]. split; [simpl; lia | constructor].
  - assert (Hr : r = read_loop (email_id :: rest) acc s) by reflexivity.
    clearbody r. cbn [read_loop] in Hr. unfold bind at 1, get_self at 1 in Hr.
    destruct (decide (email_id ∈ processed_emails (self s))) as [Hin|Hnew].
    { specialize (IH acc s). cbn zeta in IH. rewrite <- Hr in IH.
      destruct IH as (Hsame & Htr & new & Hout & Hlen & Hkeys).
      split; [exact Hsame|]. split; [exact Htr|].
      exists new. split; [exact Hout|]. split; [simpl; lia | exact Hkeys]. }
    unfold bind at 1, ext at 1 in Hr.
    destruct (imap_fetch email_id (world s)) as [[e|[m|]] w].
    + unfold bind at 1, log at 1, emit at 1 in Hr. cbn beta iota zeta in Hr.
      set (s1 := {| self := _; world := _; trace := _ |}) in Hr.
      specialize (IH acc s1). cbn zeta in IH. rewrite <- Hr in IH.
      destruct IH as (Hsame & (l & Htr & Hl) & new & Hout & Hlen & Hkeys).
      split; [exact Hsame|]. split.
      * eexists. split; [rewrite Htr; subst s1; simpl; by rewrite <- app_assoc|].
        simpl. exact Hl.
      * exists new. split; [exact Hout|]. split; [simpl; lia | exact Hkeys].
    + unfold bind at 1, add_processed at 1 in Hr. cbn beta iota zeta in Hr.
      unfold bind at 1, log at 1, emit at 1 in Hr. cbn beta iota zeta in Hr.
      set (s1 := {| self := _; world := _; trace := _ |}) in Hr.
      specialize (IH (acc ++ [make_email_data email_id m])%list s1).
      cbn zeta in IH. rewrite <- Hr in IH.
      destruct IH as (Hsame & (l & Htr & Hl) & new & Hout & Hlen & Hkeys).
      split; [exact Hsame|]. split.
      * eexists. split; [rewrite Htr; subst s1; simpl; by rewrite <- app_assoc|].
        simpl. exact Hl.
      * exists (make_email_data email_id m :: new).
        split; [rewrite Hout; by rewrite <- app_assoc|].
        split; [simpl; lia|]. constructor; [apply make_email_data_keys | exact Hkeys].
    + set (s1 := {| self := _; world := _; trace := _ |}) in Hr.
      specialize (IH acc s1). cbn zeta in IH. rewrite <- Hr in IH.
      destruct IH as (Hsame & Htr & new & Hout & Hlen & Hkeys).
      split; [exact Hsame|]. split; [exact Htr|].
      exists new. split; [exact Hout|]. split; [simpl; lia | exact Hkeys].
Qed.

Lemma read_new_emails_more (s : sys W) :
  let r := read_new_emails s in
  same_but_seen (self s) (self (snd r))
  /\ (exists l : list event,
        trace (snd r) = (trace s ++ l)%list /\ forallb is_log l = true)
  /\ Forall has_keys (fst r)
  /\ ((0 < agent_get max_emails_per_check 5%Z (config (self s)))%Z ->
      length (fst r) <= Z.to_nat (agent_get max_emails_per_check 5%Z (config (self s)))).
Proof.
  intros r. assert (Hr : r = read_new_emails s) by reflexivity. clearbody r.
  unfold read_new_emails, bind, get_self, ext in Hr.
  assert (Hnothing : forall (w : W) (l : list event),
    forallb is_log l = true ->
    r = ([], {| self := self s; world := w; trace := trace s ++ l |}) ->
    same_but_seen (self s) (self (snd r))
    /\ (exists l : list event,
          trace (snd r) = (trace s ++ l)%list /\ forallb is_log l = true)
    /\ Forall has_keys (fst r)
    /\ ((0 < agent_get max_emails_per_check 5%Z (config (self s)))%Z ->
        length (fst r) <= Z.to_nat (agent_get max_emails_per_check 5%Z (config (self s))))).
  { intros w l Hl ->. simpl. split; [apply same_but_seen_refl|]. split; [by exists l|].
    split; [constructor | lia]. }
  destruct (imap_conn (self s)).
  - destruct (imap_search_unseen (world s)) as [[e|[email_ids|]] w].
    + eapply Hnothing; [|exact Hr]. reflexivity.
    + set (s1 := {| self := _; world := _; trace := _ |}) in Hr.
      pose proof (read_loop_more
        (last_slice (agent_get max_emails_per_check 5%Z (config (self s))) email_ids)
        [] s1) as IH.
      cbn zeta in IH. rewrite <- Hr in IH.
      destruct IH as (Hsame & Htr & new & Hout & Hlen & Hkeys).
      simpl in Hout. rewrite Hout. split; [exact Hsame|]. split; [exact Htr|].
      split; [exact Hkeys|]. intros Hpos.
      pose proof (last_slice_length _ email_ids Hpos). lia.
    + apply (Hnothing w []); [reflexivity|]. by rewrite app_nil_r.
  - apply (Hnothing (world s) []); [reflexivity|]. rewrite app_nil_r, Hr.
    unfold ret. by destruct s.
Qed.

(** With a negative delay the reply loop only logs. *)
Lemma process_loop_negative delay eds : forall s : sys W,
  (delay < 0)%Z ->
  self (snd (process_loop delay eds s)) = self s
  /\ exists l : list event,
       trace (snd (process_loop delay eds s)) = (trace s ++ l)%list
       /\ forallb is_log l = true.
Proof.
  induction eds as [|ed rest IH]; intros s Hdelay.
  - simpl. split; [reflexivity|]. exists []. split; [by rewrite app_nil_r | reflexivity].
  - cbn [process_loop]. unfold bind.
    assert (Hone : self (snd (process_one delay ed s)) = self s
                   /\ exists l : list event,
                        trace (snd (process_one delay ed s)) = (trace s ++ l)%list
                        /\ forallb is_log l = true).
    { remember (process_one delay ed s) as r eqn:Hr.
      unfold process_one, processing_error, bind, log, emit in Hr.
      destruct (ed !! "subject") as [subject|].
      - set (s0 := {| self := self s; world := world s; trace := _ |}) in Hr.
        destruct (generate_ai_reply_logs ed s0) as (Hself & l1 & Htr & Hl1).
        destruct (generate_ai_reply ed s0) as [reply s1]. simpl in Hself, Htr.
        destruct (delay <? 0)%Z eqn:E; [|lia].
        subst r. simpl. split; [by rewrite Hself|].
        rewrite Htr. rewrite <- !app_assoc. eexists. split; [reflexivity|].
        simpl. apply forallb_app_true; [exact Hl1 | reflexivity].
      - subst r. simpl. split; [reflexivity|]. eexists. split; reflexivity. }
    destruct Hone as (Hself & l1 & Htr & Hl1).
    destruct (process_one delay ed s) as [[] s1]. simpl in Hself, Htr.
    destruct (IH s1 Hdelay) as (Hself' & l2 & Htr' & Hl2).
    split; [congruence|]. exists (l1 ++ l2)%list.
    split; [rewrite Htr', Htr; by rewrite app_assoc|].
    by apply forallb_app_true.
Qed.

(** A poll cycle changes nothing of the agent but the seen-set. *)
Lemma process_emails_frame (s : sys W) :
  same_but_seen (self s) (self (snd (process_emails s))).
Proof.
  remember (snd (process_emails s)) as s' eqn:Hs'.
  unfold process_emails, bind, get_self in Hs'.
  destruct (negb (agent_get auto_reply true (config (self s)))).
  - subst s'. apply same_but_seen_refl.
  - destruct (read_new_emails_more s) as (Hsame & _).
    destruct (read_new_emails s) as [new s1]. simpl in Hsame.
    assert (Hloop : s' = snd (process_loop
              (agent_get reply_delay 5%Z (config (self s))) new s1)).
    { rewrite Hs'. by destruct new. }
    destruct (process_loop_effect (agent_get reply_delay 5%Z (config (self s))) new s1)
      as (Hself & _).
    rewrite Hloop, Hself. exact Hsame.
Qed.

(** When every fetch succeeds, the loop returns one message per identifier
    offered that is new, in the order offered. *)
Lemma read_loop_all ids : forall (acc : list email_data) (s : sys W),
  (forall i w, exists m w', imap_fetch i w = (Returned (Some m), w')) ->
  NoDup ids -> (forall i, i ∈ ids -> i ∉ processed_emails (self s)) ->
  (fun ed : email_data => ed !! "id") <$> fst (read_loop ids acc s)
  = (((fun ed : email_data => ed !! "id") <$> acc) ++ (Some <$> ids))%list.
Proof.
  induction ids as [|email_id rest IH]; intros acc s Hfetch Hnodup Hnew.
  - simpl. by rewrite app_nil_r.
  - cbn [read_loop]. unfold bind at 1, get_self at 1.
    destruct (decide (email_id ∈ processed_emails (self s))) as [Hin|_].
    { exfalso. apply (Hnew email_id); [left | exact Hin]. }
    unfold bind at 1, ext at 1.
    destruct (Hfetch email_id (world s)) as (m & w' & Hf). rewrite Hf.
    unfold bind at 1, add_processed at 1. cbn beta iota zeta.
    unfold bind at 1, log at 1, emit at 1. cbn beta iota zeta.
    apply NoDup_cons in Hnodup as [Hfresh Hnodup].
    rewrite IH; [| exact Hfetch | exact Hnodup |].
    + rewrite fmap_app. simpl. rewrite make_email_data_id.
      by rewrite <- app_assoc.
    + intros i Hi. cbn [self processed_emails].
      assert (i <> email_id) by (intros ->; contradiction).
      assert (i ∉ processed_emails (self s)) by (apply Hnew; by right).
      rewrite not_elem_of_union, not_elem_of_singleton. by split.
Qed.

Lemma poll_cycles_frame n : forall s : sys W,
  same_but_seen (self s) (self (snd (poll_cycles n s))).
Proof.
  induction n as [|n IH]; intros s; [apply same_but_seen_refl|].
  remember (snd (poll_cycles (S n) s)) as s' eqn:Hs'.
  cbn [poll_cycles] in Hs'. unfold bind, get_self, emit in Hs'.
  pose proof (process_emails_frame s) as H1.
  destruct (process_emails s) as [[] s1]. simpl in H1. simpl in Hs'.
  destruct (agent_get check_interval 30 (config (self s1)) <? 0)%Z.
  { unfold ret in Hs'. simpl in Hs'. subst s'. exact H1. }
  set (s2 := {| self := self s1; world := world s1; trace := _ |}) in Hs'.
  pose proof (IH s2) as H2. rewrite <- Hs' in H2.
  exact (same_but_seen_trans _ _ _ H1 H2).
Qed.

End MoreEffects.
End AgentMore.

Import AgentMore.

Section AgentExtras.
Context {W : Type} `{Ext : External W}.
Local Open Scope agent_scope.

(** X6. With a positive [max_emails_per_check] (5 when the key is absent) a
    call of [read_new_emails] returns at most that many messages. *)
Theorem fetch_cap (s : sys W) :
  (0 < agent_get max_emails_per_check 5%Z (config (self s)))%Z ->
  length (fst (read_new_emails s))
  <= Z.to_nat (agent_get max_emails_per_check 5%Z (config (self s))).
Proof. intros H. by apply read_new_emails_more. Qed.

(** X7. When the search succeeds and every fetch succeeds, [read_new_emails]
    returns exactly the messages of the slice [email_ids[-max_emails:]], in
    that order, provided the identifiers listed are distinct and none is in
    the seen-set. The slice follows Python: for [max_emails = 0] it is the
    whole list, so a cap of zero is no cap, and for a negative value it
    drops that many of the oldest identifiers. *)
Theorem fetched_are_the_latest (s : sys W) (c : session) (email_ids : list string) (w : W) :
  imap_conn (self s) = Some c ->
  imap_search_unseen (world s) = (Returned (Some email_ids), w) ->
  (forall i w, exists m w', imap_fetch i w = (Returned (Some m), w')) ->
  NoDup email_ids ->
  (forall i, i ∈ email_ids -> i ∉ processed_emails (self s)) ->
  let max_emails := agent_get max_emails_per_check 5%Z (config (self s)) in
  (fun ed : email_data => ed !! "id") <$> fst (read_new_emails s)
  = Some <$> last_slice max_emails email_ids
  /\ (max_emails = 0%Z -> last_slice max_emails email_ids = email_ids)
  /\ ((max_emails < 0)%Z ->
      last_slice max_emails email_ids = drop (Z.to_nat (- max_emails)) email_ids)
  /\ ((0 < max_emails)%Z ->
      last_slice max_emails email_ids
      = drop (length email_ids - Z.to_nat max_emails) email_ids).
Proof.
  intros Hconn Hsearch Hfetch Hnodup Hnew max_emails.
  destruct (last_slice_suffix max_emails email_ids) as [skipped Hsuffix].
  split; [|split; [|split]].
  - unfold read_new_emails, bind, get_self, ext. rewrite Hconn, Hsearch.
    cbn beta iota zeta. fold max_emails.
    rewrite read_loop_all; [reflexivity | exact Hfetch | |].
    + rewrite Hsuffix in Hnodup. by apply NoDup_app in Hnodup as (_ & _ & H).
    + intros i Hi. cbn [self]. apply Hnew. rewrite Hsuffix. set_solver.
  - intros ->. reflexivity.
  - intros Hneg. unfold last_slice. by destruct (0 <? max_emails)%Z eqn:E; [lia|].
  - intros Hpos. unfold last_slice. by destruct (0 <? max_emails)%Z eqn:E; [|lia].
Qed.

(** X8. [read_new_emails] never fails: without a mailbox session it
    returns the empty list and touches nothing; when the search raises it
    logs the error and returns the empty list; when the search answers with
    a status other than OK it returns the empty list without a log line.
    In all three cases the agent is left as it was. *)
Theorem read_failures_give_empty_list (s : sys W) :
  (imap_conn (self s) = None -> read_new_emails s = ([], s))
  /\ (forall c e w,
        imap_conn (self s) = Some c ->
        imap_search_unseen (world s) = (Raised e, w) ->
        read_new_emails s
        = ([], {| self := self s; world := w;
                  trace := trace s ++ [Log ERROR ("Error reading emails: " ++ e)] |}))
  /\ (forall c w,
        imap_conn (self s) = Some c ->
        imap_search_unseen (world s) = (Returned None, w) ->
        read_new_emails s = ([], {| self := self s; world := w; trace := trace s |})).
Proof.
  split; [|split].
  - intros H. unfold read_new_emails, bind, get_self, ret. rewrite H. reflexivity.
  - intros c e w Hc Hs. unfold read_new_emails, bind, get_self, ext, log, emit, ret.
    rewrite Hc, Hs. reflexivity.
  - intros c w Hc Hs. unfold read_new_emails, bind, get_self, ext, ret.
    rewrite Hc, Hs. reflexivity.
Qed.

(** X9. Every message returned by [read_new_emails] has the keys [id],
    [subject], [sender], [body] and [date]; reading it changes nothing of the
    agent but the seen-set, and leaves only log lines in the trace. *)
Theorem fetched_messages_have_all_keys (s : sys W) :
  Forall (fun ed : email_data =>
            is_Some (ed !! "id") /\ is_Some (ed !! "subject")
            /\ is_Some (ed !! "sender") /\ is_Some (ed !! "body")
            /\ is_Some (ed !! "date"))
         (fst (read_new_emails s))
  /\ config (self (snd (read_new_emails s))) = config (self s)
  /\ imap_conn (self (snd (read_new_emails s))) = imap_conn (self s)
  /\ smtp_conn (self (snd (read_new_emails s))) = smtp_conn (self s)
  /\ gemini_model (self (snd (read_new_emails s))) = gemini_model (self s)
  /\ exists l : list event,
       trace (snd (read_new_emails s)) = (trace s ++ l)%list
       /\ forallb is_log l = true.
Proof.
  destruct (read_new_emails_more s) as ((H1 & H2 & H3 & H4) & Htr & Hkeys & _).
  auto 10.
Qed.

(** X11. With a negative [reply_delay], [time.sleep] raises before every
    send: over any number of poll cycles no reply is attempted and nothing
    is handed to the submission server, although the messages fetched are
    put into the seen-set as usual. *)
Theorem negative_delay_sends_nothing (n : nat) (s : sys W) :
  (agent_get reply_delay 5%Z (config (self s)) < 0)%Z ->
  exists l : list event,
    trace (snd (poll_cycles n s)) = (trace s ++ l)%list
    /\ sends l = [] /\ send_calls l = [] /\ forall i, attempts i l = 0.
Proof.
  intros Hdelay.
  cut (exists l : list event,
         trace (snd (poll_cycles n s)) = (trace s ++ l)%list
         /\ forallb is_passive l = true).
  { intros (l & Htr & Hl). exists l. split; [exact Htr|].
    split; [by apply passive_sends|]. split; [by apply passive_send_calls|].
    intros i. by apply passive_attempts. }
  revert s Hdelay. induction n as [|n IH]; intros s Hdelay.
  - exists []. split; [simpl; by rewrite app_nil_r | reflexivity].
  - cbn [poll_cycles]. unfold bind at 1.
    assert (Hcycle : config (self (snd (process_emails s))) = config (self s)
                     /\ exists l : list event,
                          trace (snd (process_emails s)) = (trace s ++ l)%list
                          /\ forallb is_passive l = true).
    { split; [apply process_emails_frame|].
      remember (snd (process_emails s)) as s' eqn:Hs'.
      unfold process_emails, bind, get_self in Hs'.
      destruct (negb (agent_get auto_reply true (config (self s)))).
      - subst s'. simpl. eexists. split; reflexivity.
      - destruct (read_new_emails_more s) as (_ & (l & Htr & Hl) & _).
        destruct (read_new_emails s) as [new s1]. simpl in Htr.
        assert (Hloop : s' = snd (process_loop
                  (agent_get reply_delay 5%Z (config (self s))) new s1)).
        { rewrite Hs'. by destruct new. }
        destruct (process_loop_negative _ new s1 Hdelay) as (_ & l2 & Htr2 & Hl2).
        rewrite <- Hloop in Htr2. exists (l ++ l2)%list.
        split; [rewrite Htr2, Htr; by rewrite app_assoc|].
        apply forallb_app_true; by apply logs_passive. }
    destruct Hcycle as (Hcfg & l1 & Htr1 & Hl1).
    destruct (process_emails s) as [[] s1]. simpl in Hcfg, Htr1.
    unfold bind, get_self, emit. cbn beta iota zeta.
    destruct (agent_get check_interval 30 (config (self s1)) <? 0)%Z.
    { unfold ret. cbn [snd]. exists l1. split; [exact Htr1 | exact Hl1]. }
    set (s2 := {| self := self s1; world := world s1; trace := _ |}).
    destruct (IH s2) as (l2 & Htr2 & Hl2); [simpl; by rewrite Hcfg|].
    eexists. split; [rewrite Htr2; subst s2; simpl; rewrite Htr1, <- !app_assoc; reflexivity|].
    apply forallb_app_true; [exact Hl1 | exact Hl2].
Qed.


(** X13. Over any number of poll cycles the seen-set only grows, every
    identifier for which a reply was attempted is in it afterwards, and the
    configuration, both sessions and the model object stay as they were. *)
Theorem seen_set_only_grows (n : nat) (s : sys W) :
  processed_emails (self s) ⊆ processed_emails (self (snd (poll_cycles n s)))
  /\ (exists l : list event,
        trace (snd (poll_cycles n s)) = (trace s ++ l)%list
        /\ forall i, 0 < attempts i l ->
                     i ∈ processed_emails (self (snd (poll_cycles n s))))
  /\ config (self (snd (poll_cycles n s))) = config (self s)
  /\ imap_conn (self (snd (poll_cycles n s))) = imap_conn (self s)
  /\ smtp_conn (self (snd (poll_cycles n s))) = smtp_conn (self s)
  /\ gemini_model (self (snd (poll_cycles n s))) = gemini_model (self s).
Proof.
  destruct (poll_cycles_effect n s) as (Hsub & l & Htr & Hl). cbn zeta in *.
  split; [exact Hsub|]. split.
  - exists l. split; [exact Htr|]. intros i. by destruct (Hl i) as (_ & _ & H).
  - exact (poll_cycles_frame n s).
Qed.

End AgentExtras.

Lemma fetch_cap_witness :
  length (fst (read_new_emails (Ext := scripted (mailbox ["3"; "4"; "5"]))
                 (start (connected (with_agent (agent_section true 5 2)))))) <= 2.
Proof.
  exact (fetch_cap (Ext := scripted (mailbox ["3"; "4"; "5"]))
           (start (connected (with_agent (agent_section true 5 2)))) eq_refl).
Defined.

Lemma fetched_are_the_latest_witness :
  (fun ed : email_data => ed !! "id")
    <$> fst (read_new_emails (Ext := scripted (mailbox ["3"; "4"; "5"]))
               (start (connected (with_agent (agent_section true 5 2)))))
  = [Some "4"; Some "5"].
Proof.
  refine (proj1 (fetched_are_the_latest (Ext := scripted (mailbox ["3"; "4"; "5"]))
            (start (connected (with_agent (agent_section true 5 2))))
            Session ["3"; "4"; "5"] 1%nat eq_refl eq_refl _ _ _)).
  - intros i w. exists coffee, w. reflexivity.
  - apply (bool_decide_unpack _). reflexivity.
  - intros i _. apply not_elem_of_empty.
Defined.

Lemma read_failures_give_empty_list_witness :
  read_new_emails (Ext := scripted offline) (start (sample_agent false true))
  = ([], {| self := sample_agent false true; world := 1%nat;
            trace := [Log ERROR "Error reading emails: socket error"] |}).
Proof.
  exact (proj1 (proj2 (read_failures_give_empty_list (Ext := scripted offline)
                         (start (sample_agent false true))))
           Session "socket error" 1%nat eq_refl eq_refl).
Defined.

Lemma negative_delay_sends_nothing_witness :
  exists l : list event,
    trace (snd (poll_cycles (Ext := scripted (mailbox ["3"; "4"; "5"])) 2
                  (start (connected (with_agent (agent_section true (-1) 2))))))
    = l
    /\ sends l = [] /\ forall i, attempts i l = 0.
Proof.
  destruct (negative_delay_sends_nothing
              (Ext := scripted (mailbox ["3"; "4"; "5"])) 2
              (start (connected (with_agent (agent_section true (-1) 2))))
              eq_refl) as (l & Htr & Hs & _ & Ha).
  exists l. split; [exact Htr|]. split; [exact Hs | exact Ha].
Defined.


Module StartMore.
Import Str Template Mime Agent AgentFacts AgentMore.
Local Open Scope agent_scope.

(** The four lines [setup_gemini] can log. *)
Definition setup_lines : list event :=
  [ Log INFO "Google Generative AI library not available - using mock responses";
    Log INFO "No Gemini API key configured - using mock responses";
    Log ERROR "Failed to setup Gemini - check API key configuration";
    Log INFO "Google Gemini (gemini-2.5-flash) initialized successfully" ].

Section StartEffects.
Context {W : Type} `{Ext : External W}.

Lemma setup_gemini_effect (s : sys W) :
  let r := setup_gemini s in
  config (self (snd r)) = config (self s)
  /\ imap_conn (self (snd r)) = imap_conn (self s)
  /\ smtp_conn (self (snd r)) = smtp_conn (self s)
  /\ processed_emails (self (snd r)) = processed_emails (self s)
  /\ (exists line, trace (snd r) = (trace s ++ [line])%list /\ In line setup_lines)
  /\ (fst r = true -> gemini_model (self (snd r)) = Some Session)
  /\ (gemini_model (self (snd r)) = gemini_model (self s)
      \/ gemini_model (self (snd r)) = Some Session).
Proof.
  intros r. assert (Hr : r = setup_gemini s) by reflexivity. clearbody r.
  unfold setup_gemini, bind, get_self, log, emit, ext, set_gemini_model, ret in Hr.
  unfold setup_lines.
  assert (Hdone : forall (b : bool) (a : agent) (w : W) line,
    In line setup_lines ->
    config a = config (self s) -> imap_conn a = imap_conn (self s) ->
    smtp_conn a = smtp_conn (self s) ->
    processed_emails a = processed_emails (self s) ->
    (b = true -> gemini_model a = Some Session) ->
    (gemini_model a = gemini_model (self s) \/ gemini_model a = Some Session) ->
    r = (b, {| self := a; world := w; trace := trace s ++ [line] |}) ->
    config (self (snd r)) = config (self s)
    /\ imap_conn (self (snd r)) = imap_conn (self s)
    /\ smtp_conn (self (snd r)) = smtp_conn (self s)
    /\ processed_emails (self (snd r)) = processed_emails (self s)
    /\ (exists line, trace (snd r) = (trace s ++ [line])%list /\ In line setup_lines)
    /\ (fst r = true -> gemini_model (self (snd r)) = Some Session)
    /\ (gemini_model (self (snd r)) = gemini_model (self s)
        \/ gemini_model (self (snd r)) = Some Session)).
  { intros b a w line Hline H1 H2 H3 H4 H5 H6 ->. simpl. eauto 10. }
  destruct gemini_available.
  2:{ eapply Hdone; [| | | | | | |exact Hr]; simpl; auto; discriminate. }
  cbn [negb] in Hr. cbn beta iota zeta in Hr.
  destruct (cfg_ai (config (self s)) ≫= api_key) as [k|].
  2:{ eapply Hdone; [| | | | | | |exact Hr]; simpl; auto; discriminate. }
  destruct (is_empty k || String.eqb k "your-gemini-api-key-here").
  { eapply Hdone; [| | | | | | |exact Hr]; simpl; auto; discriminate. }
  destruct (gemini_init k (world s)) as [[e|u] w1]; cbn beta iota zeta in Hr.
  { eapply Hdone; [| | | | | | |exact Hr]; simpl; auto; discriminate. }
  cbn [self world trace] in Hr.
  destruct (gemini_generate "Test message" w1) as [[e|text] w2];
    cbn beta iota zeta in Hr;
    (eapply Hdone; [| | | | | | |exact Hr]; simpl; auto 6).
Qed.

(** Connecting: what each outcome leaves behind. *)
Lemma connect_email_result (s : sys W) :
  let r := connect_email s in
  (fst r = true ->
     imap_conn (self (snd r)) = Some Session
     /\ smtp_conn (self (snd r)) = Some Session
     /\ last (trace (snd r)) = Some (Log INFO "Email connections established"))
  /\ (fst r = false ->
      exists e, last (trace (snd r))
                = Some (Log ERROR ("Email connection failed: " ++ e)))
  /\ (is_Some (imap_conn (self s)) -> is_Some (imap_conn (self (snd r))))
  /\ (is_Some (smtp_conn (self s)) -> is_Some (smtp_conn (self (snd r))))
  /\ gemini_model (self (snd r)) = gemini_model (self s).
Proof.
  intros r. assert (Hr : r = connect_email s) by reflexivity. clearbody r.
  unfold connect_email, connection_failed, bind, get_self, log, emit, ext,
    set_imap_conn, set_smtp_conn, ret in Hr.
  simpl in Hr.
  repeat match type of Hr with
         | context [match ?x with (_, _) => _ end] =>
             lazymatch x with
             | context [match _ with (_, _) => _ end] => fail
             | _ => destruct x as [[?|?] ?]; simpl in Hr
             end
         end;
    subst r; cbn [fst snd self trace imap_conn smtp_conn gemini_model];
    rewrite ?last_snoc;
    (split; [intros Hok; try discriminate; auto|]);
    (split; [intros Hko; try discriminate; eauto|]);
    (split; [eauto|]); (split; [eauto | reflexivity]).
Qed.

End StartEffects.
End StartMore.

Import StartMore.

Section StartExtras.
Context {W : Type} `{Ext : External W}.
Local Open Scope agent_scope.

(** X14. [setup_gemini] logs exactly one line, and it is one of four fixed
    lines: neither the key nor the text of an error can reach the log. It
    changes nothing of the agent but the model object, and it answers true
    only with the model object in place. *)
Theorem setup_gemini_logs_fixed_line (s : sys W) :
  (exists line,
      trace (snd (setup_gemini s)) = (trace s ++ [line])%list
      /\ In line
           [ Log INFO "Google Generative AI library not available - using mock responses";
             Log INFO "No Gemini API key configured - using mock responses";
             Log ERROR "Failed to setup Gemini - check API key configuration";
             Log INFO "Google Gemini (gemini-2.5-flash) initialized successfully" ])
  /\ config (self (snd (setup_gemini s))) = config (self s)
  /\ imap_conn (self (snd (setup_gemini s))) = imap_conn (self s)
  /\ smtp_conn (self (snd (setup_gemini s))) = smtp_conn (self s)
  /\ processed_emails (self (snd (setup_gemini s))) = processed_emails (self s)
  /\ (fst (setup_gemini s) = true ->
      gemini_model (self (snd (setup_gemini s))) = Some Session).
Proof.
  destruct (setup_gemini_effect s) as (H1 & H2 & H3 & H4 & H5 & H6 & _).
  cbn zeta in *. auto 10.
Qed.

(** X15. When the client and the model object can be built but the test
    call of line 135 raises, [setup_gemini] answers false and logs the
    failure, yet the model object stays in place (it was stored on line
    132): with the service enabled in the configuration, replies still go
    to the service. *)
Theorem failed_test_call_leaves_model (s : sys W) (k e : string) (w1 w2 : W) :
  gemini_available = true ->
  cfg_ai (config (self s)) ≫= api_key = Some k ->
  is_empty k || String.eqb k "your-gemini-api-key-here" = false ->
  gemini_init k (world s) = (Returned tt, w1) ->
  gemini_generate "Test message" w1 = (Raised e, w2) ->
  let r := setup_gemini s in
  fst r = false
  /\ gemini_model (self (snd r)) = Some Session
  /\ trace (snd r)
     = (trace s ++ [Log ERROR "Failed to setup Gemini - check API key configuration"])%list
  /\ (ai_get enabled false (config (self s)) = true ->
      forall ed, generate_ai_reply ed (snd r) = generate_gemini_reply ed (snd r)).
Proof.
  intros Hav Hkey Hvalid Hinit Htest r.
  assert (Hr : r = (false,
             {| self := {| config := config (self s); imap_conn := imap_conn (self s);
                           smtp_conn := smtp_conn (self s);
                           processed_emails := processed_emails (self s);
                           gemini_model := Some Session |};
                world := w2;
                trace := trace s ++
                  [Log ERROR "Failed to setup Gemini - check API key configuration"] |})).
  { subst r. unfold setup_gemini, bind, get_self, log, emit, ext, set_gemini_model, ret.
    rewrite Hav. cbn [negb]. cbn beta iota zeta. rewrite Hkey, Hvalid, Hinit.
    cbn beta iota zeta. cbn [self world trace]. rewrite Htest. reflexivity. }
  rewrite Hr. cbn [fst snd self trace gemini_model].
  repeat split. intros Hen ed.
  unfold generate_ai_reply, bind, get_self. cbn [self config gemini_model].
  rewrite Hen. reflexivity.
Qed.

(** X16. [connect_email] answers true only with both session objects in
    place, its last log line then being the success line; when it answers
    false its last log line is the failure line with the error text. It
    never removes a session object that was there, and never touches the
    model object. *)
Theorem connect_outcomes (s : sys W) :
  (fst (connect_email s) = true ->
     imap_conn (self (snd (connect_email s))) = Some Session
     /\ smtp_conn (self (snd (connect_email s))) = Some Session
     /\ last (trace (snd (connect_email s)))
        = Some (Log INFO "Email connections established"))
  /\ (fst (connect_email s) = false ->
      exists e, last (trace (snd (connect_email s)))
                = Some (Log ERROR ("Email connection failed: " ++ e)))
  /\ (is_Some (imap_conn (self s)) -> is_Some (imap_conn (self (snd (connect_email s)))))
  /\ (is_Some (smtp_conn (self s)) -> is_Some (smtp_conn (self (snd (connect_email s)))))
  /\ gemini_model (self (snd (connect_email s))) = gemini_model (self s)
  /\ config (self (snd (connect_email s))) = config (self s)
  /\ processed_emails (self (snd (connect_email s))) = processed_emails (self s).
Proof.
  destruct (connect_email_result s) as (H1 & H2 & H3 & H4 & H5).
  destruct (connect_email_effect s) as (H6 & H7 & _).
  cbn zeta in *. auto 10.
Qed.

(** X17. Each call of a send operation hands at most one message to the
    submission server, and answers true only after handing over exactly
    one, the serialised message: from the configured address to the
    recipient (for a reply, to the sender of the original message, with the
    subject prefixed by [Re: ]). *)
Theorem send_hands_over_at_most_one (s : sys W) :
  let from_addr := email (cfg_email (config (self s))) in
  (forall recipient subject body,
      exists l : list event,
        trace (snd (send_custom_email recipient subject body s)) = (trace s ++ l)%list
        /\ length (sends l) <= 1
        /\ (fst (send_custom_email recipient subject body s) = true ->
            exists text,
              as_string (plain_message from_addr recipient subject body) = Returned text
              /\ sends l = [(from_addr, recipient, text)]))
  /\ (forall ed reply_text,
        exists l : list event,
          trace (snd (send_reply ed reply_text s)) = (trace s ++ l)%list
          /\ length (sends l) <= 1
          /\ (fst (send_reply ed reply_text s) = true ->
              exists to_addr subject text,
                ed !! "sender" = Some to_addr /\ ed !! "subject" = Some subject
                /\ as_string (plain_message from_addr to_addr
                                ("Re: " ++ subject) reply_text) = Returned text
                /\ sends l = [(from_addr, to_addr, text)])).
Proof.
  intros from_addr. split.
  - intros recipient subject body.
    pose proof (send_custom_email_run recipient subject body s) as H. cbn zeta in H.
    set (entered := {| self := self s; world := world s; trace := _ |}) in H.
    set (r := send_custom_email recipient subject body s) in *.
    assert (Hpre : exists pre : list event,
               trace (match smtp_conn (self s) with
                      | Some _ => entered
                      | None => snd (connect_email entered)
                      end) = (trace s ++ pre)%list
               /\ sends pre = []
               /\ config (self (match smtp_conn (self s) with
                      | Some _ => entered
                      | None => snd (connect_email entered)
                      end)) = config (self s)).
    { destruct (smtp_conn (self s)).
      - eexists. split; [reflexivity|]. split; reflexivity.
      - destruct (connect_email_effect entered) as (Hcfg & _ & l & Htr & Hl).
        cbn zeta in Hcfg, Htr. rewrite Htr. subst entered. cbn [trace].
        rewrite <- app_assoc. eexists. split; [reflexivity|]. split; [|exact Hcfg].
        cbn. apply passive_sends, logs_passive, Hl. }
    destruct Hpre as (pre & Hpre & Hsends & Hcfg).
    set (s1 := match smtp_conn (self s) with
               | Some _ => entered
               | None => snd (connect_email entered)
               end) in *.
    rewrite Hcfg in H. fold from_addr in H.
    destruct (smtp_conn (self s1)).
    + destruct (as_string (plain_message from_addr recipient subject body))
        as [e|text].
      * exists (pre ++ [Log ERROR ("Failed to send custom email: " ++ e)])%list.
        rewrite H. cbn [fst snd trace].
        split; [rewrite Hpre; by rewrite <- app_assoc|].
        rewrite sends_app, Hsends.
        split; [simpl; lia | discriminate].
      * destruct H as (line & Htr & Hline & Hres).
        exists (pre ++ [SmtpSend from_addr recipient text; line])%list.
        split; [rewrite Htr, Hpre; by rewrite <- app_assoc|].
        rewrite sends_app, Hsends. destruct line; try discriminate.
        split; [simpl; lia | eauto].
    + destruct H as (line & Htr & Hline & Hres).
      exists (pre ++ [line])%list.
      split; [rewrite Htr, Hpre; by rewrite <- app_assoc|].
      rewrite sends_app, Hsends. destruct line; try discriminate.
      split; [simpl; lia|]. rewrite Hres. discriminate.
  - intros ed reply_text.
    remember (send_reply ed reply_text s) as r eqn:Hr.
    unfold send_reply, bind, get_self, emit, ext, log, emit, ret in Hr.
    cbn [self world trace] in Hr. fold from_addr in Hr.
    destruct (smtp_conn (self s)).
    + destruct (ed !! "sender") as [to_addr|].
      * destruct (ed !! "subject") as [subject|].
        -- cbn beta iota zeta in Hr. cbn [self world trace] in Hr.
           destruct (as_string _) as [e|text] eqn:Htext.
           ++ subst r. cbn [fst snd trace]. rewrite <- !app_assoc. eexists.
              split; [reflexivity|]. split; [simpl; lia | discriminate].
           ++ cbn beta iota zeta in Hr. cbn [self world trace] in Hr.
              destruct (smtp_sendmail _ _ _ (world s)) as [[e|u] w];
                subst r; cbn [fst snd trace]; rewrite <- !app_assoc; eexists;
                (split; [reflexivity|]); (split; [simpl; lia|]);
                intros Hok; try discriminate. eauto 10.
        -- subst r. cbn [fst snd trace]. rewrite <- !app_assoc. eexists.
           split; [reflexivity|]. split; [simpl; lia | discriminate].
      * subst r. cbn [fst snd trace]. rewrite <- !app_assoc. eexists.
        split; [reflexivity|]. split; [simpl; lia | discriminate].
    + subst r. cbn [fst snd trace]. eexists.
      split; [reflexivity|]. split; [simpl; lia | discriminate].
Qed.

(** X18. A reply to a message without the key [sender] (or, with it, without
    [subject]) fails inside [send_reply]: nothing is handed to the server,
    the missing key is logged, and the answer is false. *)
Theorem reply_without_key_fails (s : sys W) (ed : email_data) (reply_text : string) :
  is_Some (smtp_conn (self s)) ->
  (ed !! "sender" = None ->
   send_reply ed reply_text s
   = (false, {| self := self s; world := world s;
                trace := trace s ++ [Enter (SendReply ed reply_text);
                                     Log ERROR "Failed to send reply: 'sender'"] |}))
  /\ (is_Some (ed !! "sender") -> ed !! "subject" = None ->
      send_reply ed reply_text s
      = (false, {| self := self s; world := world s;
                   trace := trace s ++ [Enter (SendReply ed reply_text);
                                        Log ERROR "Failed to send reply: 'subject'"] |})).
Proof.
  intros [c Hc]. split.
  - intros Hs. unfold send_reply, bind, get_self, emit, log, emit, ret.
    cbn [self world trace]. rewrite Hc, Hs. cbn [self world trace].
    by rewrite <- app_assoc.
  - intros [to_addr Hs] Hj. unfold send_reply, bind, get_self, emit, log, emit, ret.
    cbn [self world trace]. rewrite Hc, Hs, Hj. cbn [self world trace].
    by rewrite <- app_assoc.
Qed.

(** X19. The generation service sees at most the first 500 characters of
    the body: two messages that differ only in their bodies, and whose
    bodies agree on the first 500 characters, make [generate_gemini_reply]
    send the same prompt, and on a successful call give the same reply, the
    stripped text of the service. *)
Theorem prompt_uses_first_500 (s : sys W) (ed : email_data) (body1 body2 : string) :
  take 500 body1 = take 500 body2 ->
  prompt_of (<["body" := body1]> ed) = prompt_of (<["body" := body2]> ed)
  /\ forall text w,
       gemini_generate (prompt_of (<["body" := body1]> ed)) (world s) = (Returned text, w) ->
       generate_gemini_reply (<["body" := body1]> ed) s
       = (strip text, {| self := self s; world := w;
                         trace := trace s ++ [Log INFO "Generated Gemini AI reply"] |})
       /\ generate_gemini_reply (<["body" := body2]> ed) s
          = generate_gemini_reply (<["body" := body1]> ed) s.
Proof.
  intros Htake.
  assert (Hprompt : prompt_of (<["body" := body1]> ed) = prompt_of (<["body" := body2]> ed)).
  { unfold prompt_of. rewrite !lookup_insert_eq.
    rewrite !lookup_insert_ne by discriminate.
    change (default "" (Some body1)) with body1.
    change (default "" (Some body2)) with body2. by rewrite Htake. }
  split; [exact Hprompt|]. intros text w Hgen.
  rewrite !generate_gemini_reply_run, <- Hprompt, Hgen. split; reflexivity.
Qed.

End StartExtras.

Lemma failed_test_call_leaves_model_witness :
  fst (setup_gemini (Ext := scripted key_rejected) (start (sample_agent true false))) = false
  /\ gemini_model (self (snd (setup_gemini (Ext := scripted key_rejected)
                                (start (sample_agent true false))))) = Some Session.
Proof.
  destruct (failed_test_call_leaves_model (Ext := scripted key_rejected)
              (start (sample_agent true false)) "secret-key"
              "400 API key not valid: key=secret-key" 0%nat 0%nat
              eq_refl eq_refl eq_refl eq_refl eq_refl) as (H1 & H2 & _).
  split; [exact H1 | exact H2].
Defined.

Lemma connect_outcomes_witness :
  fst (connect_email (Ext := scripted (mailbox [])) (start (sample_agent false false))) = true
  /\ smtp_conn (self (snd (connect_email (Ext := scripted (mailbox []))
                             (start (sample_agent false false))))) = Some Session
  /\ exists e, last (trace (snd (connect_email (Ext := scripted offline)
                                   (start (sample_agent false false)))))
               = Some (Log ERROR ("Email connection failed: " ++ e)).
Proof.
  pose proof (connect_outcomes (Ext := scripted (mailbox []))
                (start (sample_agent false false))) as (Hok & _).
  pose proof (connect_outcomes (Ext := scripted offline)
                (start (sample_agent false false))) as (_ & Hko & _).
  split; [reflexivity|]. split; [exact (proj1 (proj2 (Hok eq_refl)))|].
  exact (Hko eq_refl).
Defined.

Lemma send_hands_over_at_most_one_witness :
  exists l : list event,
    trace (snd (send_custom_email (Ext := scripted (one_message true (Raised "off")))
                  "bob@example.com" "Hello" "see you"
                  (start (sample_agent false true)))) = l
    /\ sends l = [("yash@example.com", "bob@example.com",
                   render (plain_message "yash@example.com" "bob@example.com"
                                         "Hello" "see you"))].
Proof.
  destruct (proj1 (send_hands_over_at_most_one
                     (Ext := scripted (one_message true (Raised "off")))
                     (start (sample_agent false true)))
              "bob@example.com" "Hello" "see you") as (l & Htr & _ & Hok).
  exists l. split; [exact Htr|].
  destruct (Hok eq_refl) as (text & Htext & Hsends).
  assert (Heq : Returned (render (plain_message "yash@example.com" "bob@example.com"
                                                "Hello" "see you"))
                = Returned text) by exact Htext.
  injection Heq as <-. exact Hsends.
Defined.

Lemma reply_without_key_fails_witness :
  send_reply (Ext := scripted (one_message true (Raised "off")))
    (mk_email "" "" "" ∖ {[ "sender" := "" ]}) "Hello" (start (sample_agent false true))
  = (false,
     {| self := sample_agent false true; world := 0%nat;
        trace := [Enter (SendReply (mk_email "" "" "" ∖ {[ "sender" := "" ]}) "Hello");
                  Log ERROR "Failed to send reply: 'sender'"] |}).
Proof.
  exact (proj1 (reply_without_key_fails
                  (Ext := scripted (one_message true (Raised "off")))
                  (start (sample_agent false true))
                  (mk_email "" "" "" ∖ {[ "sender" := "" ]}) "Hello"
                  (ex_intro _ Session eq_refl)) eq_refl).
Defined.

Lemma prompt_uses_first_500_witness :
  prompt_of (<["body" := long_text ++ " and more"]> (mk_email "A <a@x>" "Hi" ""))
  = prompt_of (<["body" := long_text ++ " or less"]> (mk_email "A <a@x>" "Hi" "")).
Proof.
  refine (proj1 (prompt_uses_first_500 (Ext := scripted offline)
                   (start (sample_agent false false))
                   (mk_email "A <a@x>" "Hi" "")
                   (long_text ++ " and more") (long_text ++ " or less") _)).
  vm_compute. reflexivity.
Defined.

Module RunMore.
Import Str Template Mime Agent AgentFacts AgentMore StartMore.
Local Open Scope agent_scope.

Section RunEffects.
Context {W : Type} `{Ext : External W} `{Cl : Closing W}.

Lemma cleanup_effect (s : sys W) :
  self (snd (cleanup s)) = self s
  /\ exists line,
       trace (snd (cleanup s)) = (trace s ++ [line])%list
       /\ (line = Log INFO "Cleanup completed"
           \/ exists e, line = Log WARNING ("Cleanup warning: " ++ e)).
Proof.
  remember (cleanup s) as r eqn:Hr.
  unfold cleanup, bind, get_self, ext, log, emit, ret in Hr.
  destruct (imap_conn (self s)); destruct (smtp_conn (self s));
    cbn beta iota zeta in Hr;
    repeat match type of Hr with
           | context [match ?x with (_, _) => _ end] =>
               lazymatch x with
               | context [match _ with (_, _) => _ end] => fail
               | _ => destruct x as [[?|?] ?]; cbn beta iota zeta in Hr
               end
           end;
    subst r; cbn [fst snd self trace]; (split; [reflexivity|]);
    eexists; (split; [reflexivity|]); eauto.
Qed.

Lemma run_loop_effect interval n : forall s : sys W,
  let s' := snd (run_loop interval n s) in
  processed_emails (self s) ⊆ processed_emails (self s')
  /\ exists l : list event,
       trace s' = (trace s ++ l)%list
       /\ forall i, once (processed_emails (self s))
                         (processed_emails (self s')) i (attempts i l).
Proof.
  induction n as [|n IH]; intros s s'.
  - subst s'. simpl. split; [done|]. eexists. split; [reflexivity|].
    intros i. tally. apply once_zero.
  - assert (Hs' : s' = snd (run_loop interval (S n) s)) by reflexivity. clearbody s'.
    cbn [run_loop] in Hs'. unfold bind, log, emit in Hs'.
    destruct (process_emails_effect s) as (Hsub & l1 & Htr & Hl1).
    destruct (process_emails s) as [[] s1]. simpl in Hsub, Htr, Hl1.
    destruct (interval <? 0)%Z.
    + subst s'. simpl. split; [exact Hsub|]. eexists.
      split; [rewrite Htr, <- app_assoc; reflexivity|].
      intros i. tally. simpl. replace (attempts i l1 + 0) with (attempts i l1) by lia.
      apply Hl1.
    + set (s2 := {| self := self s1; world := world s1; trace := _ |}) in Hs'.
      specialize (IH s2). cbn zeta in IH. rewrite <- Hs' in IH.
      destruct IH as (Hsub2 & l2 & Htr2 & Hl2). simpl in Hsub2, Htr2, Hl2.
      split; [set_solver|]. eexists.
      split; [rewrite Htr2, Htr, <- !app_assoc; reflexivity|].
      intros i. tally. simpl.
      apply (once_compose _ (processed_emails (self s1))); auto.
Qed.


End RunEffects.
End RunMore.

Import RunMore.

Section RunExtras.
Context {W : Type} `{Ext : External W} `{Cl : Closing W}.
Local Open Scope agent_scope.

(** X20. Over a whole [run] (start-up, any number of rounds before the
    interrupt, shut-down) and whatever the outside answers, a message
    identifier gets at most one reply attempt, and none if it was already
    in the seen-set. *)
Theorem run_attempts_each_message_once (n : nat) (s : sys W) :
  exists l : list event,
    trace (snd (run n s)) = (trace s ++ l)%list
    /\ forall i, attempts i l <= 1
                 /\ (i ∈ processed_emails (self s) -> attempts i l = 0).
Proof.
  remember (snd (run n s)) as s' eqn:Hs'.
  unfold run, bind, log, emit, get_self in Hs'.
  set (s0 := {| self := self s; world := world s; trace := _ |}) in Hs'.
  destruct (connect_email_effect s0) as (_ & Hseen & l1 & Htr1 & Hl1).
  cbn zeta in Hseen, Htr1.
  destruct (connect_email s0) as [ok s1]. cbn [snd] in Hseen, Htr1.
  assert (Hconn : forall i, attempts i (Enter ConnectEmail :: l1) = 0).
  { intros i. tally. by apply passive_attempts, logs_passive. }
  destruct ok; cbn [negb] in Hs'.
  - cbn [self world trace] in Hs'.
    set (s2 := {| self := self s1; world := world s1; trace := _ |}) in Hs'.
    destruct (run_loop_effect
                (agent_get check_interval 30%Z (config (self s1))) n s2)
      as (_ & l2 & Htr2 & Hl2). cbn zeta in Htr2, Hl2.
    destruct (run_loop _ n s2) as [[] s3]. cbn [snd] in Htr2, Hl2.
    destruct (cleanup_effect s3) as (_ & line & Htr3 & Hline).
    rewrite <- Hs' in Htr3. rewrite Htr3, Htr2. subst s2. cbn [trace].
    rewrite Htr1. subst s0. cbn [trace]. rewrite <- !app_assoc. cbn [app].
    eexists. split; [reflexivity|]. intros i.
    destruct (Hl2 i) as (H0 & H1 & _). cbn [self processed_emails] in H0.
    rewrite Hseen in H0. cbn [self] in H0.
    assert (Hlast : attempts i [line] = 0)
      by (destruct Hline as [->|[e ->]]; reflexivity).
    specialize (Hconn i). revert Hconn Hlast. tally. intros Hconn Hlast.
    split; [lia|]. intros Hi. specialize (H0 Hi). lia.
  - subst s'. cbn [snd trace]. rewrite Htr1. subst s0. cbn [trace].
    rewrite <- !app_assoc. cbn [app]. eexists. split; [reflexivity|]. intros i.
    specialize (Hconn i). revert Hconn. tally. intros Hconn. split; [lia|]. intros _. lia.
Qed.

(** A failed start-up is final: when [connect_email] answers false,
    [run] logs [Failed to connect to email. Exiting.] and returns, however
    long it would have been left running; it polls nothing and does not
    run [cleanup]. *)
Theorem run_stops_when_connect_fails (n : nat) (s : sys W) :
  let started := {| self := self s; world := world s;
                    trace := trace s ++ [Log INFO "Starting Email to Email AI Agent"] |} in
  fst (connect_email started) = false ->
  run n s
  = (tt, {| self := self (snd (connect_email started));
            world := world (snd (connect_email started));
            trace := trace (snd (connect_email started))
                     ++ [Log ERROR "Failed to connect to email. Exiting."] |}).
Proof.
  intros started Hfail. unfold run, bind, log, emit. fold started.
  destruct (connect_email started) as [ok s1]. cbn [fst] in Hfail. subst ok.
  reflexivity.
Qed.



(** X23. [cleanup] never fails and never changes the agent: the session
    objects stay in place. It logs exactly one line, the completion or a
    warning. When closing the mailbox session raises, the submission
    session is not closed at all. *)
Theorem cleanup_swallows_errors (s : sys W) :
  self (snd (cleanup s)) = self s
  /\ (exists line,
        trace (snd (cleanup s)) = (trace s ++ [line])%list
        /\ (line = Log INFO "Cleanup completed"
            \/ exists e, line = Log WARNING ("Cleanup warning: " ++ e)))
  /\ (forall c e w,
        imap_conn (self s) = Some c -> imap_close (world s) = (Raised e, w) ->
        cleanup s
        = (tt, {| self := self s; world := w;
                  trace := trace s ++ [Log WARNING ("Cleanup warning: " ++ e)] |})).
Proof.
  destruct (cleanup_effect s) as (H1 & H2). split; [exact H1|]. split; [exact H2|].
  intros c e w Hc Hclose. unfold cleanup, bind, get_self, ext, log, emit, ret.
  rewrite Hc, Hclose. reflexivity.
Qed.

(** X24. A freshly constructed agent has an empty seen-set and no session,
    whatever [setup_gemini] did, and its trace is the one line of
    [setup_gemini]. Until [connect_email] is called, reading the mailbox
    returns nothing and changes nothing. *)
Theorem fresh_agent_is_idle (cfg : Config) (w : W) :
  processed_emails (self (init cfg w)) = ∅
  /\ imap_conn (self (init cfg w)) = None
  /\ smtp_conn (self (init cfg w)) = None
  /\ config (self (init cfg w)) = cfg
  /\ (exists line, trace (init cfg w) = [line] /\ In line setup_lines)
  /\ read_new_emails (init cfg w) = ([], init cfg w).
Proof.
  unfold init.
  destruct (setup_gemini_effect
              {| self := fresh_agent cfg; world := w; trace := [] |})
    as (H1 & H2 & H3 & H4 & H5 & _). cbn zeta in *. cbn [self trace] in *.
  repeat split; auto.
  unfold read_new_emails, bind, get_self, ret. by rewrite H2.
Qed.

End RunExtras.

Lemma run_stops_when_connect_fails_witness :
  run (Ext := scripted offline) (Cl := closing true) 7 (start (sample_agent false false))
  = (tt, {| self := sample_agent false false; world := 0%nat;
            trace := [Log INFO "Starting Email to Email AI Agent";
                      Enter ConnectEmail;
                      Log INFO "Connecting to Gmail IMAP...";
                      Log ERROR "Email connection failed: connection refused";
                      Log ERROR "Failed to connect to email. Exiting."] |}).
Proof.
  exact (run_stops_when_connect_fails (Ext := scripted offline) (Cl := closing true)
           7 (start (sample_agent false false)) eq_refl).
Defined.



Lemma cleanup_swallows_errors_witness :
  cleanup (Cl := closing false) (start (sample_agent false true))
  = (tt, {| self := sample_agent false true; world := 0%nat;
            trace := [Log WARNING "Cleanup warning: socket closed"] |}).
Proof.
  exact (proj2 (proj2 (cleanup_swallows_errors
                         (Cl := closing false) (start (sample_agent false true))))
           Session "socket closed" 0%nat eq_refl eq_refl).
Defined.

(** ** The operator's commands *)

Module BotMore.
Import Str Template Mime Agent Bot AgentFacts AgentMore StrFacts TemplateFacts.
Local Open Scope agent_scope.






End BotMore.

Module BotMore2.
Import Str Template Mime Agent Bot AgentFacts AgentMore StrFacts TemplateFacts BotMore.
Local Open Scope agent_scope.

(** The fallback text for a meeting request is one of the first three
    templates: the subject already holds the keyword [meeting]. *)
Lemma meeting_fallback details :
  In (generate_improved_mock_reply (mk_email "Telegram" "Meeting Request" details))
     [reply_social "there"; reply_availability "there"; reply_work "there"].
Proof.
  rewrite generate_by_table, scan_content_mk, lookup_sender.
  change (extract_sender_name (default "" (Some "Telegram"))) with "there".
  unfold first_match, priority_order. cbn [List.find].
  destruct (matches _ Social); [simpl; auto|].
  destruct (matches _ Availability); [simpl; auto|].
  replace (matches (lower "Meeting Request" ++ " " ++ lower details) Work) with true;
    [simpl; auto|].
  symmetry. unfold matches, keywords, any_in. cbn [existsb].
  replace (contains "meeting" (lower "Meeting Request" ++ " " ++ lower details))
    with true; [by rewrite !orb_true_r|].
  symmetry. apply contains_app_l. reflexivity.
Qed.

Section BotEffects.
Context {W : Type} `{Ext : External W}.

(** Producing a reply text, by the service or by the templates, only logs. *)
Lemma reply_text_logs (ed : email_data) (fallback : string) (s : sys W) :
  let r := (if use_gemini (self s) then generate_gemini_reply ed else ret fallback) s in
  self (snd r) = self s
  /\ exists l : list event, trace (snd r) = (trace s ++ l)%list /\ forallb is_log l = true.
Proof.
  cbn zeta. destruct (use_gemini (self s)).
  - rewrite generate_gemini_reply_run.
    destruct (gemini_generate (prompt_of ed) (world s)) as [[e|text] w]; simpl;
      (split; [reflexivity | eexists; split; [reflexivity | reflexivity]]).
  - simpl. split; [reflexivity|]. exists []. split; [by rewrite app_nil_r | reflexivity].
Qed.

Lemma schedule_command_effect user args b (s : sys W) :
  let r := schedule_command user args b s in
  self (snd r) = self s
  /\ (exists l : list event, trace (snd r) = (trace s ++ l)%list /\ forallb is_log l = true)
  /\ read_emails (fst (fst r)) = read_emails b
  /\ forall other, other <> user ->
       pending_emails (fst (fst r)) !! other = pending_emails b !! other.
Proof.
  intros r. assert (Hr : r = schedule_command user args b s) by reflexivity. clearbody r.
  unfold schedule_command in Hr.
  assert (Husage : r = ((b, ["Usage: /schedule recipient@example.com meeting details"]), s) ->
    self (snd r) = self s
    /\ (exists l : list event, trace (snd r) = (trace s ++ l)%list /\ forallb is_log l = true)
    /\ read_emails (fst (fst r)) = read_emails b
    /\ forall other, other <> user ->
         pending_emails (fst (fst r)) !! other = pending_emails b !! other).
  { intros ->. simpl. split; [reflexivity|]. split; [|by split].
    exists []. split; [by rewrite app_nil_r | reflexivity]. }
  destruct args as [|recipient [|word words]]; [by apply Husage | by apply Husage|].
  unfold bind at 1, get_self at 1 in Hr. unfold bind in Hr.
  pose proof (reply_text_logs
                (mk_email "Telegram" "Meeting Request" (String.concat " " (word :: words)))
                (meeting_template (String.concat " " (word :: words))) s) as H.
  cbn zeta in H.
  match type of Hr with
  | context [match ?x with (_, _) => _ end] => destruct x as [body s1]
  end.
  simpl in H. destruct H as (Hself & Htr). subst r. unfold ret.
  cbn [fst snd set_pending pending_emails read_emails].
  split; [exact Hself|]. split; [exact Htr|]. split; [reflexivity|].
  intros other Hother. by rewrite lookup_insert_ne.
Qed.

Lemma reply_command_effect user args b (s : sys W) :
  let r := reply_command user args b s in
  self (snd r) = self s
  /\ (exists l : list event, trace (snd r) = (trace s ++ l)%list /\ forallb is_log l = true)
  /\ match fst r with
     | Returned (b', _) =>
         read_emails b' = read_emails b
         /\ forall other, other <> user ->
              pending_emails b' !! other = pending_emails b !! other
     | Raised _ => True
     end.
Proof.
  intros r. assert (Hr : r = reply_command user args b s) by reflexivity. clearbody r.
  unfold reply_command in Hr.
  assert (Hsame : forall text, r = (Returned (b, [text]), s) ->
    self (snd r) = self s
    /\ (exists l : list event, trace (snd r) = (trace s ++ l)%list /\ forallb is_log l = true)
    /\ match fst r with
       | Returned (b', _) =>
           read_emails b' = read_emails b
           /\ forall other, other <> user ->
                pending_emails b' !! other = pending_emails b !! other
       | Raised _ => True
       end).
  { intros text ->. simpl. split; [reflexivity|]. split; [|by split].
    exists []. split; [by rewrite app_nil_r | reflexivity]. }
  destruct args as [|number rest]; [by eapply Hsame|].
  destruct (negb (isdigit number)); [by eapply Hsame|].
  destruct (int number) as [n|].
  2:{ subst r. simpl. split; [reflexivity|]. split; [|exact I].
      exists []. split; [by rewrite app_nil_r | reflexivity]. }
  destruct ((n - 1 <? 0)%Z || _); [by eapply Hsame|].
  destruct (default [] (read_emails b !! user) !! Z.to_nat (n - 1)) as [ed|];
    [|by eapply Hsame].
  unfold bind at 1, get_self at 1 in Hr. unfold bind in Hr.
  pose proof (reply_text_logs ed (generate_improved_mock_reply ed) s) as H.
  cbn zeta in H.
  match type of Hr with
  | context [match ?x with (_, _) => _ end] => destruct x as [body s1]
  end.
  simpl in H. destruct H as (Hself & Htr).
  destruct (ed !! "sender") as [sender|];
    [destruct (ed !! "subject") as [subject|]|];
    subst r; unfold ret; cbn [fst snd set_pending pending_emails read_emails];
    (split; [exact Hself|]); (split; [exact Htr|]); try exact I.
  split; [reflexivity|]. intros other Hother. by rewrite lookup_insert_ne.
Qed.

Lemma read_command_effect user b (s : sys W) :
  let r := read_command user b s in
  (exists l : list event, trace (snd r) = (trace s ++ l)%list /\ forallb is_log l = true)
  /\ pending_emails (fst (fst r)) = pending_emails b
  /\ forall other, other <> user ->
       read_emails (fst (fst r)) !! other = read_emails b !! other.
Proof.
  intros r. assert (Hr : r = read_command user b s) by reflexivity. clearbody r.
  unfold read_command, bind, ret in Hr.
  destruct (read_new_emails_more s) as (_ & Htr & _).
  destruct (read_new_emails s) as [[|ed eds] s1]; subst r; simpl in *;
    (split; [exact Htr|]); (split; [reflexivity|]); intros other Hother;
    [reflexivity | by rewrite lookup_insert_ne].
Qed.

End BotEffects.
End BotMore2.

Import BotMore BotMore2.

Section BotExtras.
Context {W : Type} `{Ext : External W}.
Local Open Scope agent_scope.

(** X25. Nothing is sent without approval: of the registered commands only
    approve can call the send operation or hand a message to the
    submission server; compose, cancel, list-unread and reply-to leave no
    send in the trace, and neither does the scheduling command. *)
Theorem only_approve_sends (user : Z) (b : bot) (s : sys W) :
  (forall c, c <> Approve ->
     exists l : list event,
       trace (snd (handle user c b s)) = (trace s ++ l)%list
       /\ sends l = [] /\ send_calls l = [])
  /\ (forall args,
        exists l : list event,
          trace (snd (schedule_command user args b s)) = (trace s ++ l)%list
          /\ sends l = [] /\ send_calls l = []).
Proof.
  assert (Hlogs : forall (t : list event),
            (exists l : list event, t = (trace s ++ l)%list /\ forallb is_log l = true) ->
            exists l : list event, t = (trace s ++ l)%list
                                   /\ sends l = [] /\ send_calls l = []).
  { intros t (l & Ht & Hl). exists l. split; [exact Ht|].
    split; [apply passive_sends | apply passive_send_calls]; by apply logs_passive. }
  split.
  - intros c Hc. apply Hlogs. destruct c as [args| | | |args]; [| congruence | | |].
    + exists []. split; [simpl; by rewrite app_nil_r | reflexivity].
    + exists []. split; [simpl; by rewrite app_nil_r | reflexivity].
    + destruct (read_command_effect user b s) as (Htr & _). cbn zeta in Htr.
      unfold handle, bind, ret. by destruct (read_command user b s) as [r s1].
    + by destruct (reply_command_effect user args b s) as (_ & Htr & _).
  - intros args. apply Hlogs.
    by destruct (schedule_command_effect user args b s) as (_ & Htr & _).
Qed.

(** X26. Operators do not interfere: a command of one operator never
    changes the pending draft or the stored listing of another. *)
Theorem operators_are_isolated (user other : Z) (c : command) (b : bot) (s : sys W) :
  other <> user ->
  match fst (handle user c b s) with
  | Returned (b', _) =>
      pending_emails b' !! other = pending_emails b !! other
      /\ read_emails b' !! other = read_emails b !! other
  | Raised _ => True
  end.
Proof.
  intros Hother. destruct c as [args| | | |args].
  - unfold handle, ret, mail_command. cbn [fst].
    destruct args as [|recipient [|word words]]; unfold set_pending; cbn [fst pending_emails read_emails];
      try (split; reflexivity).
    split; [by rewrite lookup_insert_ne | reflexivity].
  - unfold handle, bind, ret, approve_command.
    destruct (pending_emails b !! user) as [[[recipient subject] body]|].
    + unfold bind. destruct (send_custom_email recipient subject body s) as [ok s1].
      unfold ret, set_pending. cbn [fst pending_emails read_emails].
      split; [by rewrite lookup_delete_ne | reflexivity].
    + unfold ret. unfold set_pending; cbn [fst pending_emails read_emails].
      split; [by rewrite lookup_delete_ne | reflexivity].
  - unfold handle, ret, cancel_command. cbn [fst].
    destruct (pending_emails b !! user); unfold set_pending; cbn [fst pending_emails read_emails];
      (split; [by rewrite lookup_delete_ne | reflexivity]).
  - destruct (read_command_effect user b s) as (_ & Hp & Hr). cbn zeta in Hp, Hr.
    unfold handle, bind, ret. destruct (read_command user b s) as [[b' texts] s1].
    cbn [fst] in *. split; [by rewrite Hp | by apply Hr].
  - destruct (reply_command_effect user args b s) as (_ & _ & H). cbn zeta in H.
    unfold handle. destruct (fst (reply_command user args b s)) as [e|[b' texts]]; [exact I|].
    destruct H as (Hr & Hp). split; [by apply Hp | by rewrite Hr].
Qed.

(** X27. reply-to rejects what is not a message number: without an
    argument, or with a first argument that is not all digits, it answers
    with the usage line; with a number below 1 or above the number of
    listed messages (none, if nothing was listed) it answers [Invalid email
    number.]. In each case nothing changes. A superscript digit passes
    [isdigit] but not [int]: the handler raises, again changing nothing. *)
Theorem reply_rejects_bad_numbers (user : Z) (b : bot) (s : sys W) :
  reply_command user [] b s = (Returned (b, ["Usage: /reply <email_number>"]), s)
  /\ (forall number rest,
        isdigit number = false ->
        reply_command user (number :: rest) b s
        = (Returned (b, ["Usage: /reply <email_number>"]), s))
  /\ (forall number rest n,
        isdigit number = true -> int number = Some n ->
        (n < 1 \/ Z.of_nat (length (default [] (read_emails b !! user))) < n)%Z ->
        reply_command user (number :: rest) b s
        = (Returned (b, ["Invalid email number."]), s))
  /\ (forall number rest,
        isdigit number = true -> int number = None ->
        reply_command user (number :: rest) b s
        = (Raised ("invalid literal for int() with base 10: '" ++ number ++ "'"), s)).
Proof.
  split; [reflexivity|]. split; [|split].
  - intros number rest H. unfold reply_command. by rewrite H.
  - intros number rest n Hd Hn Hrange. unfold reply_command. rewrite Hd, Hn.
    cbn [negb].
    replace ((n - 1 <? 0)%Z
             || (Z.of_nat (length (default [] (read_emails b !! user))) <=? n - 1)%Z)
      with true; [reflexivity|].
    symmetry. apply orb_true_iff. destruct Hrange; [left | right]; lia.
  - intros number rest Hd Hn. unfold reply_command. by rewrite Hd, Hn.
Qed.


(** X29. The scheduling command with the service in use and the call
    failing does not fall back to its own meeting-request text: the draft
    body is the auto-reply template for a message from [Telegram] with the
    subject [Meeting Request], which is one of the replies to an
    invitation, to a question of availability, or to a work matter,
    addressed to [there]. With the service not in use the body is the
    meeting-request text and nothing but the draft changes. *)
Theorem scheduling_fallback_is_an_auto_reply (user : Z) (b : bot) (s : sys W)
    (recipient word : string) (words : list string) :
  let details := String.concat " " (word :: words) in
  let r := schedule_command user (recipient :: word :: words) b s in
  (use_gemini (self s) = true ->
   (exists e, fst (gemini_generate
                     (prompt_of (mk_email "Telegram" "Meeting Request" details))
                     (world s)) = Raised e) ->
   exists body,
     pending_emails (fst (fst r)) !! user = Some (recipient, "Meeting Request", body)
     /\ In body [reply_social "there"; reply_availability "there"; reply_work "there"])
  /\ (use_gemini (self s) = false ->
      r = ((set_pending (<[user := (recipient, "Meeting Request", meeting_template details)]>
                           (pending_emails b)) b,
            [preview recipient "Meeting Request" (meeting_template details)]), s)).
Proof.
  intros details r. split.
  - intros Hai [e He]. subst r. unfold schedule_command, bind, get_self, ret.
    fold details. rewrite Hai, generate_gemini_reply_run.
    destruct (gemini_generate _ (world s)) as [[e'|text] w]; [|discriminate].
    unfold set_pending. cbn [fst pending_emails]. eexists.
    split; [apply lookup_insert_eq | apply meeting_fallback].
  - intros Hai. subst r. unfold schedule_command, bind, get_self, ret.
    fold details. rewrite Hai. by destruct s.
Qed.

(** X30. A draft is sent at most once: after approve, and after cancel,
    a further approve finds nothing pending, sends nothing and changes
    nothing. *)
Theorem draft_is_used_up (user : Z) (b : bot) (s : sys W) :
  (let r := approve_command user b s in
   approve_command user (fst (fst r)) (snd r)
   = ((fst (fst r), ["No pending email to approve."]), snd r))
  /\ (forall s' : sys W,
        approve_command user (fst (cancel_command user b)) s'
        = ((fst (cancel_command user b), ["No pending email to approve."]), s')).
Proof.
  assert (Hgone : forall (p : gmap Z (string * string * string)) (rd : gmap Z (list email_data))
                         (s' : sys W),
            approve_command user {| pending_emails := delete user p; read_emails := rd |} s'
            = (({| pending_emails := delete user p; read_emails := rd |},
                ["No pending email to approve."]), s')).
  { intros p rd s'. unfold approve_command. cbn [pending_emails set_pending read_emails].
    rewrite lookup_delete_eq. unfold ret.
    by rewrite (delete_id _ _ (lookup_delete_eq p user)). }
  split.
  - cbn zeta. remember (approve_command user b s) as r eqn:Hr.
    unfold approve_command, bind, ret in Hr.
    destruct (pending_emails b !! user) as [[[recipient subject] body]|].
    + destruct (send_custom_email recipient subject body s) as [ok s1].
      subst r. cbn [fst snd]. unfold set_pending. apply Hgone.
    + subst r. cbn [fst snd]. unfold set_pending. apply Hgone.
  - intros s'. unfold cancel_command.
    destruct (pending_emails b !! user); cbn [fst]; unfold set_pending; apply Hgone.
Qed.

(** Compose keeps one draft per operator: with a recipient and at
    least one word the new draft replaces whatever was pending for that
    operator, with the fixed subject and the words joined by single spaces;
    with fewer arguments it answers with the usage line and changes
    nothing. The listing stored for the operator is not touched. *)
Theorem compose_replaces_the_draft (user : Z) (b : bot) :
  (forall recipient word words,
      let r := mail_command user (recipient :: word :: words) b in
      pending_emails (fst r) !! user
      = Some (recipient, "Message from Telegram", String.concat " " (word :: words))
      /\ read_emails (fst r) = read_emails b
      /\ snd r = [preview recipient "Message from Telegram"
                          (String.concat " " (word :: words))])
  /\ mail_command user [] b = (b, ["Usage: /mail recipient@example.com message"])
  /\ (forall recipient,
        mail_command user [recipient] b
        = (b, ["Usage: /mail recipient@example.com message"])).
Proof.
  split; [|split; [reflexivity | reflexivity]].
  intros recipient word words r. subst r. unfold mail_command.
  unfold set_pending. cbn [fst snd pending_emails read_emails].
  split; [apply lookup_insert_eq | split; reflexivity].
Qed.

End BotExtras.

Lemma only_approve_sends_witness :
  exists l : list event,
    trace (snd (handle (Ext := scripted (mailbox ["3"; "4"])) 7 Read no_drafts
                  (start (sample_agent false true)))) = l
    /\ sends l = [] /\ send_calls l = [].
Proof.
  destruct (proj1 (only_approve_sends (Ext := scripted (mailbox ["3"; "4"])) 7 no_drafts
                     (start (sample_agent false true))) Read) as (l & Htr & Hs & Hc).
  - discriminate.
  - exists l. split; [exact Htr|]. split; [exact Hs | exact Hc].
Defined.

Lemma operators_are_isolated_witness :
  pending_emails (fst (mail_command 7 ["bob@example.com"; "see"; "you"] listed)) !! 8%Z
  = Some ("eve@example.com", "Message from Telegram", "hi").
Proof.
  pose proof (operators_are_isolated (Ext := scripted offline) 7 8
                (Mail ["bob@example.com"; "see"; "you"]) listed
                (start (sample_agent false false))) as H.
  destruct H as [H _]; [discriminate|]. exact H.
Defined.

Lemma reply_rejects_bad_numbers_witness :
  reply_command (Ext := scripted offline) 7 ["2"] listed (start (sample_agent false false))
  = (Returned (listed, ["Invalid email number."]), start (sample_agent false false))
  /\ reply_command (Ext := scripted offline) 7 [superscript_two] listed
       (start (sample_agent false false))
     = (Raised ("invalid literal for int() with base 10: '" ++ superscript_two ++ "'"),
        start (sample_agent false false)).
Proof.
  pose proof (reply_rejects_bad_numbers (Ext := scripted offline) 7 listed
                (start (sample_agent false false))) as (_ & _ & Hrange & Hraise).
  split.
  - apply (Hrange "2" [] 2%Z); [reflexivity | reflexivity |]. right. vm_compute. reflexivity.
  - apply (Hraise superscript_two []); reflexivity.
Defined.


Lemma scheduling_fallback_is_an_auto_reply_witness :
  exists body,
    pending_emails
      (fst (fst (schedule_command (Ext := scripted key_rejected) 7
                   ["bob@example.com"; "budget"; "review"] no_drafts
                   (start (sample_agent true true))))) !! 7%Z
    = Some ("bob@example.com", "Meeting Request", body)
    /\ In body [reply_social "there"; reply_availability "there"; reply_work "there"].
Proof.
  apply (proj1 (scheduling_fallback_is_an_auto_reply (Ext := scripted key_rejected)
                  7 no_drafts (start (sample_agent true true))
                  "bob@example.com" "budget" ["review"])).
  - reflexivity.
  - eexists. reflexivity.
Defined.

Lemma seen_set_only_grows_witness :
  "1" ∈ processed_emails
          (self (snd (poll_cycles (Ext := scripted (one_message false (Raised "quota")))
                        3 (start (sample_agent false true))))).
Proof.
  destruct (seen_set_only_grows (Ext := scripted (one_message false (Raised "quota")))
              3 (start (sample_agent false true))) as (_ & (l & Htr & Hl) & _).
  apply Hl. change (trace (start (sample_agent false true)) ++ l)%list with l in Htr.
  rewrite <- Htr. vm_compute. lia.
Defined.

Lemma setup_gemini_logs_fixed_line_witness :
  gemini_model (self (snd (setup_gemini (Ext := scripted (one_message true (Returned "ok")))
                             (start (sample_agent true false))))) = Some Session.
Proof.
  destruct (setup_gemini_logs_fixed_line
              (Ext := scripted (one_message true (Returned "ok")))
              (start (sample_agent true false))) as (_ & _ & _ & _ & _ & H).
  exact (H eq_refl).
Defined.

Lemma run_attempts_each_message_once_witness :
  "1" ∈ processed_emails (self (start seen_one))
  /\ attempts "1"
       (trace (snd (run (Ext := scripted (one_message false (Raised "quota")))
                        (Cl := closing true) 2 (start seen_one)))) = 0.
Proof.
  assert (Hin : "1" ∈ processed_emails (self (start seen_one)))
    by (change ("1" ∈ ({[ "1" ]} : gset string)); by apply elem_of_singleton_2).
  split; [exact Hin|].
  destruct (run_attempts_each_message_once
              (Ext := scripted (one_message false (Raised "quota")))
              (Cl := closing true) 2 (start seen_one)) as (l & Htr & Hl).
  rewrite Htr. exact (proj2 (Hl "1") Hin).
Defined.
